(** * TARDIS plasma properties: a shallow embedding of
      [tardis/plasma/plasma_properties.py]

    The module defines a small dependency-graph engine.  A property node
    declares the names of its [inputs]; [update] resolves them by
    [getattr] on the shared context ([plasma_parent]), calls the node's
    [calculate] positionally and stores what it returns in [self.value].

    Python objects are modelled as follows.
    - Numbers are IEEE binary64 values (Rocq's primitive [float]), with the
      arithmetic of the hardware; [numpy.exp] is a parameter.
    - Objects whose attributes are looked up by a computed name (the
      context, the atomic-data source, the NLTE configuration) are finite
      maps from attribute names to values.
    - A property node is a record of the instance attributes the source
      assigns or reads.
    - Methods run in a state-and-exception monad: the state holds the node
      and a log of the attribute reads done on external objects; a raised
      exception keeps the state reached so far, as in Python.
    - Numeric operands are the shapes the module works on: 1-D float64
      arrays, the levels table, float64 tables.  An operand of another
      shape is answered with [TypeError] (or [AttributeError] where the
      source reads a column). *)

From Stdlib Require Import ZArith Floats.
From stdpp Require Import gmap strings list.

#[local] Set Warnings "-register-all".

(** ** Values *)

(** Row label of the levels table: (atomic_number, ion_number,
    level_number); a species is (atomic_number, ion_number). *)
Definition level_key : Type := Z * Z * Z.
Definition species_key : Type := Z * Z.

Definition species_of (k : level_key) : species_key := (k.1.1, k.1.2).

(** One row of the [levels] DataFrame.  The statistical weight [g] is
    held as the double it becomes in the product with a float64 array. *)
Record level := Level {
  lkey : level_key;
  g : float;
  energy : float;
  metastable : bool
}.

(** A float64 DataFrame whose rows are labelled by levels: [index],
    [columns] and the row-major [values]. *)
Record frame := Frame {
  index : list level_key;
  columns : list Z;
  values : list (list float)
}.

(** A float64 DataFrame with one row per species (what
    [groupby(level=[...]).sum()] returns: unique, sorted labels). *)
Record species_frame := SpeciesFrame {
  scolumns : list Z;
  srows : gmap species_key (list float)
}.

Inductive pyval : Type :=
| PNone
| PBool (b : bool)
| PInt (z : Z)
| PFloat (x : float)
| PArray (a : list float)
| PLevels (t : list level)
| PFrame (f : frame)
| PSpeciesFrame (f : species_frame)
| PObject (attrs : gmap string pyval)
| PList (l : list pyval)
| PTuple (l : list pyval).

(** ** Exceptions and the method monad *)

Inductive exn : Type :=
| AttributeError (attr : string)
| NameError (name : string)
| KeyError
| TypeError
| ValueError
| IncompleteAtomicData (name : string).

Inductive result (A : Type) : Type :=
| Ok (a : A)
| Raise (e : exn).
Arguments Ok {A} a.
Arguments Raise {A} e.

(** Instance attributes of a property node.  [None] stands for an
    attribute that does not exist on the instance. *)
Record node := Node {
  value : option pyval;
  k_B_cgs : option float;
  beta_rads : option pyval;
  t_rads : option pyval;
  ws : option pyval;
  atom_data : option pyval;
  nlte_config : option pyval;
  level_populations : option pyval
}.

Definition set_value (v : pyval) (n : node) : node :=
  {| value := Some v; k_B_cgs := k_B_cgs n; beta_rads := beta_rads n;
     t_rads := t_rads n; ws := ws n; atom_data := atom_data n;
     nlte_config := nlte_config n;
     level_populations := level_populations n |}.

(** Two nodes agree on every attribute except [value]. *)
Definition same_but_value (n n' : node) : Prop :=
  k_B_cgs n' = k_B_cgs n ∧ beta_rads n' = beta_rads n ∧
  t_rads n' = t_rads n ∧ ws n' = ws n ∧ atom_data n' = atom_data n ∧
  nlte_config n' = nlte_config n ∧
  level_populations n' = level_populations n.

(** The state a method runs in: the node ([self]) and the attribute
    names read so far from external objects, latest first. *)
Record store := Store {
  self : node;
  reads : list string
}.

Definition M (A : Type) : Type := store → result A * store.

#[global] Instance M_ret : MRet M := λ A a s, (Ok a, s).
#[global] Instance M_bind : MBind M := λ A B f m s,
  match m s with
  | (Ok a, s') => f a s'
  | (Raise e, s') => (Raise e, s')
  end.

Definition raise {A} (e : exn) : M A := λ s, (Raise e, s).
Definition get_self : M node := λ s, (Ok (self s), s).
(** [self.value = v]. *)
Definition assign_value (v : pyval) : M unit :=
  λ s, (Ok tt, {| self := set_value v (self s); reads := reads s |}).
Definition log_read (attr : string) : M unit :=
  λ s, (Ok tt, {| self := self s; reads := attr :: reads s |}).

(** [self.attr] for an instance attribute. *)
Definition self_attr (attr : string) (proj : node → option pyval) : M pyval :=
  n ← get_self;
  match proj n with
  | Some v => mret v
  | None => raise (AttributeError attr)
  end.

(** [getattr(obj, attr)] on an external object; the read is logged. *)
Definition getattr (obj : pyval) (attr : string) : M pyval :=
  match obj with
  | PObject attrs =>
      _ ← log_read attr;
      match attrs !! attr with
      | Some v => mret v
      | None => raise (AttributeError attr)
      end
  | _ => raise (AttributeError attr)
  end.

(** Truth value of an object, as [not x] computes it. *)
Definition truthy (v : pyval) : M bool :=
  match v with
  | PNone => mret false
  | PBool b => mret b
  | PInt z => mret (negb (z =? 0)%Z)
  | PFloat x => mret (negb (PrimFloat.eqb x 0%float))
  | PList l | PTuple l => mret (negb (length l =? 0))
  | PObject _ => mret true
  | PLevels _ | PFrame _ | PSpeciesFrame _ => raise ValueError
  | PArray [] => mret false
  | PArray [x] => mret (negb (PrimFloat.eqb x 0%float))
  | PArray _ => raise ValueError
  end.

Definition is_None (v : pyval) : bool :=
  match v with PNone => true | _ => false end.

(** ** BasePlasmaProperty *)

(** What a concrete property class supplies: its [inputs] declaration and
    its [calculate], called with the resolved inputs. *)
Record plasma_property := PlasmaProperty {
  inputs : list string;
  calculate : list pyval → M pyval
}.

Module BasePlasmaProperty.

(** [__init__]: binds the context; no other attribute is created. *)
Definition init : node :=
  {| value := None; k_B_cgs := None; beta_rads := None; t_rads := None;
     ws := None; atom_data := None; nlte_config := None;
     level_populations := None |}.

(** [getattr(self.plasma_parent, item)]: the context is the attribute
    dictionary of the object [plasma_parent] refers to at the time of
    the call. *)
Definition resolve (plasma_parent : gmap string pyval) (item : string)
  : M pyval :=
  match plasma_parent !! item with
  | Some v => mret v
  | None => raise (AttributeError item)
  end.

Fixpoint resolve_all (plasma_parent : gmap string pyval)
    (items : list string) : M (list pyval) :=
  match items with
  | [] => mret []
  | item :: rest =>
      v ← resolve plasma_parent item;
      vs ← resolve_all plasma_parent rest;
      mret (v :: vs)
  end.

(** [update]:
    args = [getattr(self.plasma_parent, item) for item in self.inputs]
    self.value = self.calculate( *args) *)
Definition update (P : plasma_property)
    (plasma_parent : gmap string pyval) : M unit :=
  args ← resolve_all plasma_parent (inputs P);
  v ← calculate P args;
  assign_value v.

End BasePlasmaProperty.

(** ** BaseAtomicDataProperty and its subclasses *)

Module BaseAtomicDataProperty.

(** [__init__]: the base constructor, then [self.value = None]. *)
Definition init : node := set_value PNone BasePlasmaProperty.init.

(** [calculate(self, atomic_data)] for a subclass whose class attribute
    [name] is [name].  The last branch assigns [self.value] and falls
    off the end of the function, so the call returns [None]. *)
Definition calculate (name : string) (atomic_data : pyval) : M pyval :=
  v ← self_attr "value" value;
  if negb (is_None v) then mret v
  else
    flag ← getattr atomic_data ("has_" +:+ name);
    has ← truthy flag;
    if negb has then raise (IncompleteAtomicData name)
    else
      data ← getattr atomic_data name;
      _ ← assign_value data;
      mret PNone.

Definition class (name : string) : plasma_property :=
  PlasmaProperty ["atomic_data"]
    (λ args,
       match args with
       | [atomic_data] => calculate name atomic_data
       | _ => raise TypeError
       end).

End BaseAtomicDataProperty.

Module AtomicLevels.
Definition name : string := "levels".
Definition class : plasma_property := BaseAtomicDataProperty.class name.
End AtomicLevels.

Module AtomicLines.
Definition name : string := "lines".
Definition class : plasma_property := BaseAtomicDataProperty.class name.
End AtomicLines.


(** ** numpy and pandas operations used by the formula nodes *)

Open Scope float_scope.

(** A 2-D float64 array: its number of columns and its rows.  (The number
    of columns is kept apart because an array may have no row.) *)
Record ndarray := NdArray {
  ncols : nat;
  rows : list (list float)
}.

(** [-a] on a 1-D array. *)
Definition neg (a : list float) : list float := (λ x, - x) <$> a.

(** [np.outer(a, b)]: entry (i, j) is [a_i * b_j]. *)
Definition outer (a b : list float) : ndarray :=
  {| ncols := length b; rows := (λ x, (λ y, x * y) <$> b) <$> a |}.

(** A function applied to every entry, as numpy's ufuncs do. *)
Definition ufunc (f : float → float) (m : ndarray) : ndarray :=
  {| ncols := ncols m; rows := (λ row : list float, f <$> row) <$> rows m |}.

(** [col[np.newaxis].T * m]: row [i] of [m] scaled by [col_i]. *)
Definition mul_column (col : list float) (m : ndarray) : ndarray :=
  {| ncols := ncols m;
     rows := zip_with (λ c row, (λ x, c * x) <$> row) col (rows m) |}.

(** [np.arange(n)]. *)
Definition arange (n : nat) : list Z := Z.of_nat <$> seq 0 n.

(** [pd.DataFrame(data, index=..., columns=..., dtype=np.float64)]: the
    shape of the data must be the one the labels imply. *)
Definition DataFrame (data : ndarray) (idx : list level_key)
    (cols : list Z) : result frame :=
  if decide (length (rows data) = length idx ∧ ncols data = length cols)
  then Ok {| index := idx; columns := cols; values := rows data |}
  else Raise ValueError.

(** [df[mask]] for a boolean column [mask] that carries the index of
    [df]: the rows at the positions where [mask] is true. *)
Definition select_rows (mask : list bool) (f : frame)
    : list (level_key * list float) :=
  snd <$> filter (λ p, p.1 = true) (zip mask (zip (index f) (values f))).

(** Rows collected per species, in row order. *)
Definition group_rows (rs : list (level_key * list float))
    : gmap species_key (list (list float)) :=
  foldl (λ acc p, <[species_of p.1 := default [] (acc !! species_of p.1) ++ [p.2]]> acc)
        ∅ rs.

(** A reduction applied to every column of a block of rows. *)
Definition reduce_columns (red : list float → float) (n : nat)
    (block : list (list float)) : list float :=
  (λ c, red (omap (λ row : list float, row !! c) block)) <$> seq 0 n.

(** [rows.groupby(level=['atomic_number', 'ion_number']).sum()]. *)
Definition groupby_sum (red : list float → float) (cols : list Z)
    (rs : list (level_key * list float)) : species_frame :=
  {| scolumns := cols;
     srows := reduce_columns red (length cols) <$> group_rows rs |}.

(** [w * df] for a 1-D array [w]: pandas lines [w] up with the columns,
    so the lengths must agree. *)
Definition scale_columns (w : list float) (f : species_frame)
    : result species_frame :=
  if decide (length w = length (scolumns f))
  then Ok {| scolumns := scolumns f;
             srows := (λ row, zip_with (λ a x, a * x) w row) <$> srows f |}
  else Raise ValueError.

(** [df.ix[other.index] += other], that is
    [df.ix[other.index] = df.ix[other.index] + other]: the rows labelled
    by [other.index] are selected, [other] is added label by label and the
    sums are assigned back to the same labels.  A label of [other] that
    [df] lacks is never given the value zero: the selection holds no
    number for it (at best a row of NaN, and NaN plus a number is NaN),
    and the assignment has no row to write to, which pandas reports as a
    [KeyError]. *)
Definition ix_iadd (f other : species_frame) : result species_frame :=
  if decide (dom (srows other) ⊆ dom (srows f))
  then Ok {| scolumns := scolumns f;
             srows := union_with
                        (λ row add, Some (zip_with (λ x y, x + y) row add))
                        (srows f) (srows other) |}
  else Raise KeyError.

(** Lifting of results into the method monad. *)
Definition lift {A} (r : result A) : M A :=
  match r with Ok a => mret a | Raise e => raise e end.

(** Column access on an argument expected to be the levels table. *)
Definition as_levels (attr : string) (v : pyval) : M (list level) :=
  match v with
  | PLevels t => mret t
  | _ => raise (AttributeError attr)
  end.

(** An operand expected to be a 1-D float64 array.  The arithmetic of
    the source has no type test of its own: what it gives for an operand
    of another kind (a scalar, a list) depends on whether [k_B_cgs] is a
    Python float or a numpy scalar, which the module does not fix.  The
    model covers array operands and answers the others with [TypeError];
    no theorem below asserts that answer. *)
Definition as_array (v : pyval) : M (list float) :=
  match v with
  | PArray a => mret a
  | _ => raise TypeError
  end.

(** [len(x)] for the sized values of the model. *)
Definition len (v : pyval) : M nat :=
  match v with
  | PArray a => mret (length a)
  | PList l | PTuple l => mret (length l)
  | PLevels t => mret (length t)
  | PFrame f => mret (length (index f))
  | PSpeciesFrame f => mret (size (srows f))
  | _ => raise TypeError
  end.

(** ** BetaRadiation *)

Module BetaRadiation.

(** [__init__]: the base constructor, then
    [self.k_B_cgs = const.k_B.cgs.value]; the value the constants
    provider gives is the argument [k_B]. *)
Definition init (k_B : float) : node :=
  {| value := None; k_B_cgs := Some k_B; beta_rads := None; t_rads := None;
     ws := None; atom_data := None; nlte_config := None;
     level_populations := None |}.

(** [1 / (self.k_B_cgs * t_rad)] on a 1-D array. *)
Definition calculate (k_B_cgs : float) (t_rad : list float) : list float :=
  (λ d, 1 / d) <$> ((λ t, k_B_cgs * t) <$> t_rad).

Definition calculate_method (t_rad : pyval) : M pyval :=
  n ← get_self;
  match k_B_cgs n with
  | None => raise (AttributeError "k_B_cgs")
  | Some k =>
      t ← as_array t_rad;
      mret (PArray (calculate k t))
  end.

Definition class : plasma_property :=
  PlasmaProperty ["t_rad"]
    (λ args,
       match args with
       | [t_rad] => calculate_method t_rad
       | _ => raise TypeError
       end).

End BetaRadiation.

(** ** LevelBoltzmannFactor *)

Module LevelBoltzmannFactor.
Section with_numpy.
Variable exp : float → float.

(** [calculate(self, levels, beta_rad)]. *)
Definition calculate (levels : list level) (beta_rad : list float)
    : result frame :=
  let exponential := ufunc exp (outer (energy <$> levels) (neg beta_rad)) in
  let level_boltzmann_factor_array :=
    mul_column (g <$> levels) exponential in
  DataFrame level_boltzmann_factor_array (lkey <$> levels)
            (arange (length beta_rad)).

Definition calculate_method (levels beta_rad : pyval) : M pyval :=
  lv ← as_levels "energy" levels;
  b ← as_array beta_rad;
  f ← lift (calculate lv b);
  mret (PFrame f).

Definition class : plasma_property :=
  PlasmaProperty ["levels"; "beta_rad"]
    (λ args,
       match args with
       | [levels; beta_rad] => calculate_method levels beta_rad
       | _ => raise TypeError
       end).

End with_numpy.
End LevelBoltzmannFactor.

(** ** PartitionFunction *)

(** The names the module binds at its top level (imports and classes).
    The objects they are bound to play no part here. *)
Definition module_globals : gmap string pyval :=
  list_to_map ((λ name, (name, PObject ∅)) <$>
    ["ABCMeta"; "abstractmethod"; "const"; "np"; "pd";
     "IncompleteAtomicData"; "BasePlasmaProperty";
     "BaseAtomicDataProperty"; "AtomicLevels"; "AtomicLines";
     "BetaRadiation"; "LevelBoltzmannFactor"; "PartitionFunction"]).

Module PartitionFunction.
Section with_libraries.
(** [numpy.exp] on one entry. *)
Variable exp : float → float.
(** The reduction [groupby(...).sum()] applies to one column of one
    group, and the one [DataFrame.sum()] applies to one column, each given
    the entries in row order. *)
Variable group_sum : list float → float.
Variable frame_sum : list float → float.
(** The namespace of the module at the time of the call: a name that is
    neither local to [calculate] nor built in is looked up here. *)
Variable globals : gmap string pyval.

Definition load_name (name : string) : M pyval :=
  match globals !! name with
  | Some v => mret v
  | None => raise (NameError name)
  end.

(** [self.atom_data.levels], then a column or the index of it. *)
Definition atom_data_levels (attr : string) : M (list level) :=
  ad ← self_attr "atom_data" atom_data;
  t ← getattr ad "levels";
  as_levels attr t.

(** [x != []]. *)
Definition ne_empty_list (v : pyval) : M bool :=
  match v with
  | PList [] => mret false
  | PArray _ | PLevels _ | PFrame _ | PSpeciesFrame _ => raise ValueError
  | _ => mret true
  end.

(** One element of [nlte_config.species], used as a row label. *)
Definition as_species (v : pyval) : M species_key :=
  match v with
  | PTuple [PInt a; PInt i] => mret (a, i)
  | _ => raise KeyError
  end.

Definition as_frame (v : pyval) : M frame :=
  match v with
  | PFrame f => mret f
  | _ => raise TypeError
  end.

(** Body of the loop of lines 136-139 for one species:
    partition_functions.ix[species] =
        self.atom_data.levels.g.ix[species].ix[0] *
        (self.level_populations.ix[species] /
         self.level_populations.ix[species].ix[0]).sum() *)
Definition override (pf : species_frame) (species : pyval)
    : M species_frame :=
  sp ← as_species species;
  t ← atom_data_levels "g";
  match list_find (λ l, lkey l = (sp.1, sp.2, 0%Z)) t with
  | None => raise KeyError
  | Some (_, l0) =>
      lp ← self_attr "level_populations" level_populations;
      pops ← as_frame lp;
      let block :=
        filter (λ p : level_key * list float, species_of p.1 = sp)
               (zip (index pops) (values pops)) in
      match list_find (λ p : level_key * list float,
                         p.1 = (sp.1, sp.2, 0%Z)) block with
      | None => raise KeyError
      | Some (_, first) =>
          let ratio :=
            (λ p : level_key * list float,
               zip_with (λ x y, x / y) p.2 first.2) <$> block in
          let total :=
            reduce_columns frame_sum (length (columns pops)) ratio in
          mret {| scolumns := scolumns pf;
                  srows := <[sp := (λ x, g l0 * x) <$> total]> (srows pf) |}
      end
  end.

Fixpoint override_all (pf : species_frame) (species : list pyval)
    : M species_frame :=
  match species with
  | [] => mret pf
  | sp :: rest => pf' ← override pf sp; override_all pf' rest
  end.

(** Lines 135-139. *)
Definition nlte_branch (pf : species_frame) : M species_frame :=
  cfg ← self_attr "nlte_config" nlte_config;
  if is_None cfg then mret pf
  else
    species ← getattr cfg "species";
    nonempty ← ne_empty_list species;
    if negb nonempty then mret pf
    else
      initialize_nlte ← load_name "initialize_nlte";
      initializing ← truthy initialize_nlte;
      if negb initializing then
        cfg' ← self_attr "nlte_config" nlte_config;
        species' ← getattr cfg' "species";
        match species' with
        | PList l | PTuple l => override_all pf l
        | _ => raise TypeError
        end
      else mret pf.

(** [calculate(self, levels, level_boltzmann_factor)]. *)
Definition calculate (levels level_boltzmann_factor : pyval) : M pyval :=
  (* lines 121-122 *)
  gs ← as_levels "g" levels;
  es ← as_levels "energy" levels;
  br ← self_attr "beta_rads" beta_rads;
  b ← as_array br;
  let level_population_proportional_array :=
    mul_column (g <$> gs) (ufunc exp (outer (energy <$> es) (neg b))) in
  (* lines 123-125 *)
  al ← atom_data_levels "index";
  tr ← self_attr "t_rads" t_rads;
  n ← len tr;
  lpp ← lift (DataFrame level_population_proportional_array
                         (lkey <$> al) (arange n));
  (* lines 130-131 *)
  meta ← atom_data_levels "metastable";
  let partition_functions :=
    groupby_sum group_sum (columns lpp)
                (select_rows (metastable <$> meta) lpp) in
  (* lines 132-133 *)
  w ← self_attr "ws" ws;
  meta' ← atom_data_levels "metastable";
  wa ← as_array w;
  partition_functions_non_meta ←
    lift (scale_columns wa
            (groupby_sum group_sum (columns lpp)
               (select_rows ((λ l, negb (metastable l)) <$> meta') lpp)));
  (* line 134 *)
  pf ← lift (ix_iadd partition_functions partition_functions_non_meta);
  (* lines 135-139 *)
  pf' ← nlte_branch pf;
  (* line 141 *)
  mret (PTuple [PFrame lpp; PSpeciesFrame pf']).

Definition class : plasma_property :=
  PlasmaProperty ["levels"; "level_boltzmann_factor"]
    (λ args,
       match args with
       | [levels; level_boltzmann_factor] =>
           calculate levels level_boltzmann_factor
       | _ => raise TypeError
       end).

End with_libraries.
End PartitionFunction.

(** ** Class attributes and get_label *)

(** The classes of the module.  [BasePlasmaProperty] declares
    [calculate] abstract; it is listed because the other classes inherit
    from it. *)
Inductive plasma_class : Type :=
| Class_BasePlasmaProperty
| Class_BaseAtomicDataProperty
| Class_AtomicLevels
| Class_AtomicLines
| Class_BetaRadiation
| Class_LevelBoltzmannFactor
| Class_PartitionFunction.

(** The classes a class inherits from, nearest first. *)
Definition bases (c : plasma_class) : list plasma_class :=
  match c with
  | Class_BasePlasmaProperty => []
  | Class_BaseAtomicDataProperty | Class_BetaRadiation
  | Class_LevelBoltzmannFactor | Class_PartitionFunction =>
      [Class_BasePlasmaProperty]
  | Class_AtomicLevels | Class_AtomicLines =>
      [Class_BaseAtomicDataProperty; Class_BasePlasmaProperty]
  end.

(** The string-valued attributes a class body assigns. *)
Definition own_attributes (c : plasma_class) : gmap string string :=
  match c with
  | Class_BasePlasmaProperty | Class_BaseAtomicDataProperty => ∅
  | Class_AtomicLevels =>
      {[ "name" := "levels"; "type_str" := "pandas.DataFrame" ]}
  | Class_AtomicLines =>
      {[ "name" := "lines"; "type_str" := "pandas.DataFrame" ]}
  | Class_BetaRadiation =>
      {[ "name" := "beta_rad"; "type_str" := "numpy.array";
         "latex_str" := "$\frac{1}{K_B T_\textrm{rad}}$" ]}
  | Class_LevelBoltzmannFactor =>
      {[ "name" := "level_boltzmann_factor"; "label" := "test" ]}
  | Class_PartitionFunction =>
      {[ "label" := "test" ]}
  end.

(** Attribute lookup on an instance of [c] for an attribute no instance
    carries: the class, then its bases in order. *)
Definition class_getattr (c : plasma_class) (attr : string) : option string :=
  head (omap (λ k, own_attributes k !! attr) (c :: bases c)).

(** The line feed character and the string ['\n']. *)
Definition line_feed : Ascii.ascii := Ascii.ascii_of_nat 10.
Definition newline : string := String line_feed EmptyString.

(** ["Name: {0}\nType: {1}\n{2}".format(name, type_str, latex_str)]. *)
Definition format_label (name type_str latex_str : string) : string :=
  "Name: " +:+ name +:+ newline +:+ "Type: " +:+ type_str +:+ newline
  +:+ latex_str.

(** [get_label(self)] on an instance of class [c]: the arguments of
    [format] are evaluated from left to right; [latex_str] has the
    default [''] *)
Definition get_label (c : plasma_class) : result string :=
  match class_getattr c "name" with
  | None => Raise (AttributeError "name")
  | Some name =>
      match class_getattr c "type_str" with
      | None => Raise (AttributeError "type_str")
      | Some type_str =>
          Ok (format_label name type_str
                (default EmptyString (class_getattr c "latex_str")))
      end
  end.

(** ** The concrete property classes of the module *)

Inductive concrete : plasma_property → Prop :=
| concrete_atomic_data name :
    concrete (BaseAtomicDataProperty.class name)
| concrete_beta_radiation :
    concrete BetaRadiation.class
| concrete_level_boltzmann_factor exp :
    concrete (LevelBoltzmannFactor.class exp)
| concrete_partition_function exp group_sum frame_sum globals :
    concrete (PartitionFunction.class exp group_sum frame_sum globals).

(** * Vocabulary of the statements *)

(** Running a method from a node, with an empty read log. *)
Definition run {A} (m : M A) (n : node) : result A * store :=
  m {| self := n; reads := [] |}.

(** [k] calls of [update] in a row against the same context; the first
    exception ends the sequence. *)
Fixpoint updates (P : plasma_property) (plasma_parent : gmap string pyval)
    (k : nat) : M unit :=
  match k with
  | O => mret tt
  | S k' =>
      _ ← BasePlasmaProperty.update P plasma_parent;
      updates P plasma_parent k'
  end.

(** A method that raises from state [s]. *)
Definition raises {A} (m : M A) (s : store) : Prop :=
  ∃ e s', m s = (Raise e, s').

(** A method that writes no attribute of [self] other than [value],
    whether it returns or raises. *)
Definition preserves {A} (m : M A) : Prop :=
  ∀ s, same_but_value (self s) (self (m s).2).

(** An atomic-data source that has the dataset [data] under [name], and
    a context that holds a source. *)
Definition capable_source (name : string) (data : pyval)
    (rest : gmap string pyval) : gmap string pyval :=
  <["has_" +:+ name := PBool true]> (<[name := data]> rest).

Definition context_with_source (src : gmap string pyval)
    (ctx : gmap string pyval) : gmap string pyval :=
  <["atomic_data" := PObject src]> ctx.

(** The reads one [update] does on a capable source, latest first. *)
Definition load_reads (name : string) (log : list string) : list string :=
  name :: ("has_" +:+ name) :: log.

(** The states a memoized-source node goes through: the one [__init__]
    leaves, and the one any [update] leaves, returning or raising. *)
Inductive reachable (name : string) : node → Prop :=
| reachable_init : reachable name BaseAtomicDataProperty.init
| reachable_update n ctx log :
    reachable name n →
    reachable name
      (self (BasePlasmaProperty.update (BaseAtomicDataProperty.class name)
               ctx {| self := n; reads := log |}).2).

(** The Boltzmann constant in erg/K as a double: the CODATA 2010 value
    (1.3806488e-16), which astropy gave when the module was written, and
    the CODATA 2018 value (1.380649e-16). *)
Definition k_B_2010 : float := 0x1.3e5b1ec6d90cfp-53.
Definition k_B_2018 : float := 0x1.3e5b21cc8f74fp-53.

(** A whole number of kelvin as a double ([kelvin 10000] is [10000.0]),
    and the temperatures that are a whole number of kelvin from 1 K to
    100000 K. *)
Definition kelvin (z : Z) : float := PrimFloat.of_uint63 (Uint63.of_Z z).

Definition whole_kelvin (t : float) : Prop :=
  ∃ z, (1 ≤ z ≤ 100000)%Z ∧ t = kelvin z.

(** An integer read off the binary representation of a double (its
    exponent above its mantissa): equal doubles have equal keys. *)
Definition quotient_key (q : float) : PrimInt63.int :=
  let (f, e) := PrimFloat.frshiftexp q in
  PrimInt63.add
    (PrimInt63.lsl (PrimInt63.sub e (Uint63.of_Z 2100)) (Uint63.of_Z 53))
    (PrimFloat.normfr_mantissa f).

(** The keys of the quotients [1 / (k * kelvin i)] for
    [i = z, z + 1, ..., z + fuel - 1] decrease strictly, starting below
    [bound]. *)
Fixpoint decreasing_from (k : float) (fuel : nat) (z : Z)
    (bound : PrimInt63.int) : bool :=
  match fuel with
  | O => true
  | S fuel =>
      let x := quotient_key (1 / (k * kelvin z)) in
      if PrimInt63.ltb x bound then decreasing_from k fuel (z + 1) x
      else false
  end.

(** The per-level weighted table: row [k] holds, for every cell [c],
    [g_k * exp(energy_k * -beta_c)]. *)
Definition weighted_rows (exp : float → float) (table : list level)
    (beta : list float) : list (list float) :=
  (λ l, (λ x, g l * exp (energy l * - x)) <$> beta) <$> table.

Definition weighted_frame (exp : float → float) (levels table : list level)
    (beta t : list float) : frame :=
  {| index := lkey <$> table; columns := arange (length t);
     values := weighted_rows exp levels beta |}.

(** The rows of a labelled selection that belong to one species. *)
Definition rows_of_species (sp : species_key)
    (rs : list (level_key * list float)) : list (list float) :=
  snd <$> filter (λ p : level_key * list float, species_of p.1 = sp) rs.

(** The rows [rws] of the levels of [table] that belong to species [sp]
    and satisfy [P], in table order. *)
Definition level_rows (P : level → bool) (sp : species_key)
    (table : list level) (rws : list (list float)) : list (list float) :=
  snd <$> filter (λ p : level * list float,
                    P p.1 = true ∧ species_of (lkey p.1) = sp)
                 (zip table rws).

(** The scenario of the aggregation example: one species with two
    levels, one cell, [beta_rads = [1.0]] and [ws = [0.5]].  Of [t_rads]
    only the length is used. *)
Definition two_level_table (metastable0 : bool) : list level :=
  [ {| lkey := (1, 0, 0)%Z; g := 1; energy := 0; metastable := metastable0 |};
    {| lkey := (1, 0, 1)%Z; g := 2; energy := 1; metastable := false |} ].

Definition two_level_node (metastable0 : bool) (config : pyval) : node :=
  {| value := None; k_B_cgs := None;
     beta_rads := Some (PArray [1]);
     t_rads := Some (PArray [10000]);
     ws := Some (PArray [0.5]);
     atom_data :=
       Some (PObject {[ "levels" := PLevels (two_level_table metastable0) ]});
     nlte_config := Some config;
     level_populations := None |}.

Definition override_config : gmap string pyval :=
  {[ "species" := PList [PTuple [PInt 1; PInt 0]] ]}.

(** Stand-ins for the library functions on the scenario: the doubles
    [numpy.exp] returns for the two exponents that occur ([-0.0] and
    [-1.0]), and a sum taken in row order. *)
Definition scenario_exp (x : float) : float :=
  if (x =? -1)%float then 0x1.78b56362cef38p-2%float else 1%float.

Definition scenario_sum (xs : list float) : float :=
  foldl PrimFloat.add 0%float xs.

(** The formula classes: the ones whose [calculate] never assigns to
    [self]. *)
Inductive formula : plasma_property → Prop :=
| formula_beta_radiation :
    formula BetaRadiation.class
| formula_level_boltzmann_factor exp :
    formula (LevelBoltzmannFactor.class exp)
| formula_partition_function exp group_sum frame_sum globals :
    formula (PartitionFunction.class exp group_sum frame_sum globals).

(** A node with another value slot, and with another [nlte_config]. *)
Definition with_value (o : option pyval) (n : node) : node :=
  {| value := o; k_B_cgs := k_B_cgs n; beta_rads := beta_rads n;
     t_rads := t_rads n; ws := ws n; atom_data := atom_data n;
     nlte_config := nlte_config n;
     level_populations := level_populations n |}.

Definition with_nlte_config (o : option pyval) (n : node) : node :=
  {| value := value n; k_B_cgs := k_B_cgs n; beta_rads := beta_rads n;
     t_rads := t_rads n; ws := ws n; atom_data := atom_data n;
     nlte_config := o;
     level_populations := level_populations n |}.

(** A state seen from another starting point: the node changed by [f]
    and the log continued from [older] reads. *)
Definition retarget (f : node → node) (older : list string) (s : store)
    : store :=
  {| self := f (self s); reads := reads s ++ older |}.

(** A method that behaves the same from [g s] as from [s]: same result,
    and the final state is the image of the final state. *)
Definition blind (g : store → store) {A} (m : M A) : Prop :=
  ∀ s, m (g s) = ((m s).1, g (m s).2).

(** An override configuration whose list of species is empty. *)
Definition empty_override_config : gmap string pyval :=
  {[ "species" := PList [] ]}.

(** Whether a character occurs in a string. *)
Fixpoint has_char (c : Ascii.ascii) (s : string) : bool :=
  match s with
  | EmptyString => false
  | String x s' => if Ascii.eqb x c then true else has_char c s'
  end.

(** * Properties *)

(** ** The method monad *)

Lemma bind_Ok {A B} (m : M A) (f : A → M B) s a s' :
  m s = (Ok a, s') → (m ≫= f) s = f a s'.
Proof. intros H. unfold mbind, M_bind. by rewrite H. Qed.

Lemma bind_Raise {A B} (m : M A) (f : A → M B) s e s' :
  m s = (Raise e, s') → (m ≫= f) s = (Raise e, s').
Proof. intros H. unfold mbind, M_bind. by rewrite H. Qed.

Lemma raises_bind {A B} (m : M A) (f : A → M B) s :
  (∀ a s', m s = (Ok a, s') → raises (f a) s') → raises (m ≫= f) s.
Proof.
  intros H. unfold raises, mbind, M_bind.
  destruct (m s) as [[a|e] s'] eqn:E; [by apply H | by eauto].
Qed.

Lemma same_but_value_refl n : same_but_value n n.
Proof. by repeat split. Qed.

Lemma same_but_value_trans n1 n2 n3 :
  same_but_value n1 n2 → same_but_value n2 n3 → same_but_value n1 n3.
Proof.
  unfold same_but_value. intros (?&?&?&?&?&?&?) (?&?&?&?&?&?&?).
  repeat split; congruence.
Qed.

Lemma same_but_value_set v n : same_but_value n (set_value v n).
Proof. by repeat split. Qed.

Lemma preserves_ret {A} (a : A) : preserves (mret a).
Proof. intros s. apply same_but_value_refl. Qed.

Lemma preserves_raise {A} e : preserves (@raise A e).
Proof. intros s. apply same_but_value_refl. Qed.

Lemma preserves_bind {A B} (m : M A) (f : A → M B) :
  preserves m → (∀ a, preserves (f a)) → preserves (m ≫= f).
Proof.
  intros Hm Hf s. specialize (Hm s). unfold mbind, M_bind.
  destruct (m s) as [[a|e] s']; simpl in *; [|done].
  eapply same_but_value_trans; [done | apply Hf].
Qed.

Lemma preserves_get_self : preserves get_self.
Proof. intros s. apply same_but_value_refl. Qed.

Lemma preserves_log_read attr : preserves (log_read attr).
Proof. intros s. apply same_but_value_refl. Qed.

Lemma preserves_assign_value v : preserves (assign_value v).
Proof. intros s. apply same_but_value_set. Qed.

Lemma preserves_lift {A} (r : result A) : preserves (lift r).
Proof. destruct r; [apply preserves_ret | apply preserves_raise]. Qed.

Create HintDb preserves.
#[local] Hint Resolve preserves_ret preserves_raise preserves_get_self
  preserves_log_read preserves_assign_value preserves_lift : preserves.

(** Goes through a method body: binds, branches and primitive steps. *)
Ltac preserves_step :=
  match goal with
  | |- preserves (mbind _ _) => apply preserves_bind; [|intros ?]
  | |- preserves (_ ≫= _) => apply preserves_bind; [|intros ?]
  | |- preserves (match ?x with _ => _ end) => destruct x
  | |- preserves (if ?x then _ else _) => destruct x
  | |- preserves _ => solve [auto with preserves]
  end.

Lemma preserves_self_attr attr proj : preserves (self_attr attr proj).
Proof. unfold self_attr. repeat preserves_step. Qed.

Lemma preserves_getattr obj attr : preserves (getattr obj attr).
Proof. unfold getattr. repeat preserves_step. Qed.

Lemma preserves_truthy v : preserves (truthy v).
Proof. unfold truthy. repeat preserves_step. Qed.

Lemma preserves_as_levels attr v : preserves (as_levels attr v).
Proof. unfold as_levels. repeat preserves_step. Qed.

Lemma preserves_as_array v : preserves (as_array v).
Proof. unfold as_array. repeat preserves_step. Qed.

Lemma preserves_len v : preserves (len v).
Proof. unfold len. repeat preserves_step. Qed.

#[local] Hint Resolve preserves_self_attr preserves_getattr preserves_truthy
  preserves_as_levels preserves_as_array preserves_len : preserves.

Lemma preserves_resolve_all ctx items :
  preserves (BasePlasmaProperty.resolve_all ctx items).
Proof.
  induction items as [|item items IH]; simpl; [auto with preserves|].
  unfold BasePlasmaProperty.resolve. repeat preserves_step.
Qed.

Lemma preserves_atomic_data_calculate name atomic_data :
  preserves (BaseAtomicDataProperty.calculate name atomic_data).
Proof. unfold BaseAtomicDataProperty.calculate. repeat preserves_step. Qed.

Lemma preserves_beta_radiation_calculate t_rad :
  preserves (BetaRadiation.calculate_method t_rad).
Proof. unfold BetaRadiation.calculate_method. repeat preserves_step. Qed.

Lemma preserves_level_boltzmann_factor_calculate exp levels beta_rad :
  preserves (LevelBoltzmannFactor.calculate_method exp levels beta_rad).
Proof.
  unfold LevelBoltzmannFactor.calculate_method. repeat preserves_step.
Qed.

Section partition_function_preserves.
Variables (exp : float → float) (group_sum frame_sum : list float → float).
Variable globals : gmap string pyval.

Lemma preserves_atom_data_levels attr :
  preserves (PartitionFunction.atom_data_levels attr).
Proof. unfold PartitionFunction.atom_data_levels. repeat preserves_step. Qed.

Lemma preserves_override pf species :
  preserves (PartitionFunction.override frame_sum pf species).
Proof.
  pose proof preserves_atom_data_levels.
  unfold PartitionFunction.override, PartitionFunction.as_species,
    PartitionFunction.as_frame.
  repeat preserves_step.
Qed.

Lemma preserves_override_all species pf :
  preserves (PartitionFunction.override_all frame_sum pf species).
Proof.
  revert pf. induction species as [|sp rest IH]; intros pf; simpl.
  - auto with preserves.
  - apply preserves_bind; [apply preserves_override | done].
Qed.

Lemma preserves_nlte_branch pf :
  preserves (PartitionFunction.nlte_branch frame_sum globals pf).
Proof.
  pose proof preserves_override_all.
  unfold PartitionFunction.nlte_branch, PartitionFunction.ne_empty_list,
    PartitionFunction.load_name.
  repeat preserves_step.
Qed.

Lemma preserves_partition_function_calculate levels lbf :
  preserves
    (PartitionFunction.calculate exp group_sum frame_sum globals levels lbf).
Proof.
  pose proof preserves_atom_data_levels.
  pose proof preserves_nlte_branch.
  unfold PartitionFunction.calculate. repeat preserves_step.
Qed.

End partition_function_preserves.

Lemma concrete_calculate_preserves P args :
  concrete P → preserves (calculate P args).
Proof.
  destruct 1; simpl;
    repeat (match goal with
            | |- preserves (match ?x with _ => _ end) => destruct x
            end);
    auto using preserves_raise, preserves_atomic_data_calculate,
      preserves_beta_radiation_calculate,
      preserves_level_boltzmann_factor_calculate,
      preserves_partition_function_calculate.
Qed.

(** ** update (BasePlasmaProperty) *)

Lemma resolve_all_Ok ctx items args s :
  Forall2 (λ item v, ctx !! item = Some v) items args →
  BasePlasmaProperty.resolve_all ctx items s = (Ok args, s).
Proof.
  induction 1 as [|item v items args Hv _ IH]; simpl; [done|].
  unfold BasePlasmaProperty.resolve. rewrite Hv.
  unfold mbind, M_bind, mret, M_ret in *. by rewrite IH.
Qed.

Lemma resolve_all_Raise ctx items s :
  Exists (λ item, ctx !! item = None) items →
  ∃ item, item ∈ items ∧ ctx !! item = None ∧
    BasePlasmaProperty.resolve_all ctx items s =
      (Raise (AttributeError item), s).
Proof.
  induction items as [|item items IH]; intros Hex; [by inversion Hex|].
  simpl. unfold BasePlasmaProperty.resolve.
  destruct (ctx !! item) as [v|] eqn:Hv.
  - inversion Hex as [? ? Hn|? ? Htl]; subst; [congruence|].
    destruct (IH Htl) as (item' & Hin & Hnone & Heq).
    exists item'. split; [by right|]. split; [done|].
    unfold mbind, M_bind, mret, M_ret in *. by rewrite Heq.
  - exists item. split; [by left|]. done.
Qed.

(** C1.  For every concrete property class, every context and every
    state: when [args] are the values the context binds to the names of
    [inputs], in that order, [update] calls [calculate] on [args].  If the
    call returns [v], [update] returns the unit (Python's [None]) and the
    node it leaves has [value = v], every other attribute as [calculate]
    left it, and no further read is logged; an exception of [calculate] is
    passed on with the state [calculate] reached.  A name the context
    lacks makes [update] raise [AttributeError] with the state unchanged.
    In every case the attributes of the node other than [value] are the
    ones before the call. *)
Theorem update_resolves_calculates_stores
    (P : plasma_property) (ctx : gmap string pyval) (s : store) :
  concrete P →
  (∀ args, Forall2 (λ item v, ctx !! item = Some v) (inputs P) args →
     match calculate P args s with
     | (Ok v, s1) =>
         (BasePlasmaProperty.update P ctx s).1 = Ok tt ∧
         value (self (BasePlasmaProperty.update P ctx s).2) = Some v ∧
         same_but_value (self s1)
           (self (BasePlasmaProperty.update P ctx s).2) ∧
         reads (BasePlasmaProperty.update P ctx s).2 = reads s1
     | (Raise e, s1) => BasePlasmaProperty.update P ctx s = (Raise e, s1)
     end) ∧
  (Exists (λ item, ctx !! item = None) (inputs P) →
     ∃ item, item ∈ inputs P ∧ ctx !! item = None ∧
       BasePlasmaProperty.update P ctx s = (Raise (AttributeError item), s)) ∧
  same_but_value (self s) (self (BasePlasmaProperty.update P ctx s).2).
Proof.
  intros HP. split; [|split].
  - intros args Hargs. unfold BasePlasmaProperty.update.
    rewrite (bind_Ok _ _ _ _ _ (resolve_all_Ok _ _ _ s Hargs)).
    unfold mbind, M_bind.
    destruct (calculate P args s) as [[v|e] s1]; [|done].
    unfold assign_value. cbn [fst snd self reads value].
    split; [done|]. split; [done|]. split; [|done].
    unfold same_but_value. by destruct (self s1).
  - intros Hex. destruct (resolve_all_Raise ctx _ s Hex) as (item & ? & ? & Heq).
    exists item. split; [done|]. split; [done|].
    unfold BasePlasmaProperty.update. by rewrite (bind_Raise _ _ _ _ _ Heq).
  - apply preserves_bind; [apply preserves_resolve_all|]. intros args.
    apply preserves_bind; [by apply concrete_calculate_preserves|].
    intros v. apply preserves_assign_value.
Qed.

Lemma update_resolves_calculates_stores_witness :
  concrete BetaRadiation.class ∧
  (BasePlasmaProperty.update BetaRadiation.class
     {[ "t_rad" := PArray [10000] ]}
     {| self := BetaRadiation.init 0x1.3e5b1ec6d90cfp-53;
        reads := [] |}).1 = Ok tt ∧
  value
    (self (BasePlasmaProperty.update BetaRadiation.class
             {[ "t_rad" := PArray [10000] ]}
             {| self := BetaRadiation.init 0x1.3e5b1ec6d90cfp-53;
                reads := [] |}).2) =
    Some (PArray [1 / (0x1.3e5b1ec6d90cfp-53 * 10000)]) ∧
  same_but_value
    (BetaRadiation.init 0x1.3e5b1ec6d90cfp-53)
    (self (BasePlasmaProperty.update BetaRadiation.class
             {[ "t_rad" := PArray [10000] ]}
             {| self := BetaRadiation.init 0x1.3e5b1ec6d90cfp-53;
                reads := [] |}).2) ∧
  reads
    (BasePlasmaProperty.update BetaRadiation.class
       {[ "t_rad" := PArray [10000] ]}
       {| self := BetaRadiation.init 0x1.3e5b1ec6d90cfp-53;
          reads := [] |}).2 = [].
Proof.
  split; [constructor|].
  exact (proj1
           (update_resolves_calculates_stores BetaRadiation.class
              {[ "t_rad" := PArray [10000] ]}
              {| self := BetaRadiation.init 0x1.3e5b1ec6d90cfp-53;
                 reads := [] |}
              ltac:(constructor))
           [PArray [10000]]
           ltac:(repeat constructor)).
Defined.

(** ** Memoized-source nodes (BaseAtomicDataProperty) *)

Lemma has_name_ne name : "has_" +:+ name ≠ name.
Proof.
  intros H. apply (f_equal String.length) in H.
  cbv [String.append] in H. simpl in H. lia.
Qed.

(** One [update] from the unloaded state with a capable source: the
    dataset is assigned inside [calculate] and then overwritten with the
    [None] that [calculate] returns. *)
Lemma atomic_data_update_capable name data rest ctx n log :
  value n = Some PNone →
  BasePlasmaProperty.update (BaseAtomicDataProperty.class name)
    (context_with_source (capable_source name data rest) ctx)
    {| self := n; reads := log |} =
  (Ok tt, {| self := n; reads := load_reads name log |}).
Proof.
  intros Hn. unfold BasePlasmaProperty.update. simpl.
  unfold BasePlasmaProperty.resolve, context_with_source.
  rewrite lookup_insert_eq.
  unfold mbind, M_bind, mret, M_ret. simpl.
  unfold BaseAtomicDataProperty.calculate, self_attr, getattr, get_self,
    log_read, assign_value, mbind, M_bind, mret, M_ret, raise. simpl.
  rewrite Hn. simpl. unfold capable_source.
  rewrite lookup_insert_eq. simpl.
  rewrite lookup_insert_ne by apply has_name_ne.
  rewrite lookup_insert_eq. simpl.
  unfold load_reads. do 2 f_equal.
  destruct n; simpl in *. unfold set_value; simpl. by rewrite Hn.
Qed.

Lemma atomic_data_updates_capable name data rest ctx k n log :
  value n = Some PNone →
  updates (BaseAtomicDataProperty.class name)
    (context_with_source (capable_source name data rest) ctx) k
    {| self := n; reads := log |} =
  (Ok tt, {| self := n; reads := Nat.iter k (load_reads name) log |}).
Proof.
  intros Hn. revert log. induction k as [|k IH]; intros log; [done|].
  simpl updates.
  rewrite (bind_Ok _ _ _ _ _ (atomic_data_update_capable _ _ _ _ _ _ Hn)).
  rewrite IH. by rewrite Nat.iter_succ_r.
Qed.

Lemma count_load_reads name k :
  length (filter (λ attr, attr = name) (Nat.iter k (load_reads name) [])) = k.
Proof.
  induction k as [|k IH]; [done|].
  simpl. unfold load_reads at 1.
  rewrite filter_cons_True by done.
  rewrite filter_cons_False by apply has_name_ne.
  simpl. by rewrite IH.
Qed.

(** C2 (the code departs from the claim).  After any positive number of
    [update] calls against a source that has the dataset, every call has
    succeeded and [self.value] is [None], not the dataset: [calculate]
    assigns the dataset and returns nothing, and [update] stores that
    [None]. *)
Theorem atomic_data_value_stays_None
    (name : string) (data : pyval) (rest ctx : gmap string pyval) (k : nat) :
  let r := run (updates (BaseAtomicDataProperty.class name)
                  (context_with_source (capable_source name data rest) ctx)
                  (S k))
               BaseAtomicDataProperty.init in
  r.1 = Ok tt ∧ value (self r.2) = Some PNone.
Proof.
  unfold run. by rewrite atomic_data_updates_capable.
Qed.

(** C3 (the code departs from the claim).  [k] calls of [update] against
    the same capable source all succeed and leave the same [value]
    ([None]), but the dataset attribute of the source is read [k] times,
    once per call, not at most once. *)
Theorem atomic_data_reads_every_update
    (name : string) (data : pyval) (rest ctx : gmap string pyval) (k : nat) :
  let r := run (updates (BaseAtomicDataProperty.class name)
                  (context_with_source (capable_source name data rest) ctx)
                  k)
               BaseAtomicDataProperty.init in
  r.1 = Ok tt ∧
  self r.2 = BaseAtomicDataProperty.init ∧
  length (filter (λ attr, attr = name) (reads r.2)) = k.
Proof.
  unfold run. rewrite atomic_data_updates_capable by done.
  simpl. split; [done|]. split; [done|]. apply count_load_reads.
Qed.

(** X2.  The branch of [calculate] that serves a value already set (lines
    38-39): the value is returned as it is, the node is not written and
    the source is not read. *)
Theorem atomic_data_calculate_cached
    (name : string) (atomic_data : pyval) (n : node) (log : list string)
    (v : pyval) :
  value n = Some v → is_None v = false →
  BaseAtomicDataProperty.calculate name atomic_data
    {| self := n; reads := log |} =
  (Ok v, {| self := n; reads := log |}).
Proof.
  intros Hn Hv. unfold BaseAtomicDataProperty.calculate, self_attr, get_self,
    mbind, M_bind, mret, M_ret. simpl. rewrite Hn. simpl. by rewrite Hv.
Qed.

Lemma atomic_data_calculate_cached_witness :
  BaseAtomicDataProperty.calculate "levels" (PObject ∅)
    {| self := set_value (PLevels []) BaseAtomicDataProperty.init;
       reads := [] |} =
  (Ok (PLevels []),
   {| self := set_value (PLevels []) BaseAtomicDataProperty.init;
      reads := [] |}).
Proof.
  apply (atomic_data_calculate_cached "levels" (PObject ∅)
           (set_value (PLevels []) BaseAtomicDataProperty.init) []
           (PLevels [])); reflexivity.
Defined.

Lemma update_incomplete name ctx src n log :
  value n = Some PNone →
  ctx !! "atomic_data" = Some (PObject src) →
  src !! ("has_" +:+ name) = Some (PBool false) →
  BasePlasmaProperty.update (BaseAtomicDataProperty.class name) ctx
    {| self := n; reads := log |} =
  (Raise (IncompleteAtomicData name),
   {| self := n; reads := ("has_" +:+ name) :: log |}).
Proof.
  intros Hn Hctx Hflag. unfold BasePlasmaProperty.update. simpl.
  unfold BasePlasmaProperty.resolve. rewrite Hctx.
  unfold BaseAtomicDataProperty.calculate, self_attr, getattr, get_self,
    log_read, mbind, M_bind, mret, M_ret, raise. simpl.
  rewrite Hn. simpl. by rewrite Hflag.
Qed.

(** C4.  A memoized-source node whose value slot is in its initial state
    ([None]) and whose source reports [has_<name>] as false: [update]
    raises [IncompleteAtomicData] carrying the name of the node, and the
    node is left as it was; only the capability flag has been read. *)
Theorem atomic_data_update_incomplete
    (name : string) (ctx src : gmap string pyval) (n : node)
    (log : list string) :
  value n = Some PNone →
  ctx !! "atomic_data" = Some (PObject src) →
  src !! ("has_" +:+ name) = Some (PBool false) →
  BasePlasmaProperty.update (BaseAtomicDataProperty.class name) ctx
    {| self := n; reads := log |} =
  (Raise (IncompleteAtomicData name),
   {| self := n; reads := ("has_" +:+ name) :: log |}).
Proof. apply update_incomplete. Qed.

Lemma atomic_data_update_incomplete_witness :
  BasePlasmaProperty.update AtomicLevels.class
    {[ "atomic_data" := PObject {[ "has_levels" := PBool false ]} ]}
    {| self := BaseAtomicDataProperty.init; reads := [] |} =
  (Raise (IncompleteAtomicData "levels"),
   {| self := BaseAtomicDataProperty.init; reads := ["has_levels"] |}).
Proof.
  apply (atomic_data_update_incomplete "levels"
           {[ "atomic_data" := PObject {[ "has_levels" := PBool false ]} ]}
           {[ "has_levels" := PBool false ]}
           BaseAtomicDataProperty.init []);
    reflexivity.
Defined.

(** Every state a memoized-source node can be in is the initial one: the
    hypothesis of C4 on the value slot holds for every node built by
    [__init__] and driven by [update]. *)
Lemma atomic_data_update_from_init name ctx log :
  self (BasePlasmaProperty.update (BaseAtomicDataProperty.class name) ctx
          {| self := BaseAtomicDataProperty.init; reads := log |}).2 =
  BaseAtomicDataProperty.init.
Proof.
  unfold BasePlasmaProperty.update. simpl.
  unfold BasePlasmaProperty.resolve, BaseAtomicDataProperty.calculate,
    self_attr, getattr, truthy, get_self, log_read, assign_value, mbind,
    M_bind, mret, M_ret, raise. simpl.
  repeat (case_match; simplify_eq/=; try done).
Qed.

Lemma reachable_is_init name n :
  reachable name n → n = BaseAtomicDataProperty.init.
Proof.
  induction 1 as [|n ctx log _ ->]; [done|].
  apply atomic_data_update_from_init.
Qed.

Lemma update_incomplete_reachable name ctx src n log :
  reachable name n →
  ctx !! "atomic_data" = Some (PObject src) →
  src !! ("has_" +:+ name) = Some (PBool false) →
  BasePlasmaProperty.update (BaseAtomicDataProperty.class name) ctx
    {| self := n; reads := log |} =
  (Raise (IncompleteAtomicData name),
   {| self := n; reads := ("has_" +:+ name) :: log |}).
Proof.
  intros ->%reachable_is_init. by apply update_incomplete.
Qed.

(** ** binary64 facts *)

(** Moving a sign across a product: [x * -y] and [-x * y] are the same
    double (the sign of a product is the exclusive or of the signs). *)
Lemma mul_opp_swap (x y : float) : x * - y = - x * y.
Proof.
  rewrite <- (SF2Prim_Prim2SF (x * - y)), <- (SF2Prim_Prim2SF (- x * y)).
  f_equal. rewrite !FloatAxioms.mul_spec, !FloatAxioms.opp_spec.
  destruct (Prim2SF x) as [[]|[]| |[] mx ex],
           (Prim2SF y) as [[]|[]| |[] my ey]; reflexivity.
Qed.

Lemma Prim2SF_zero : Prim2SF zero = S754_zero false.
Proof. reflexivity. Qed.

Lemma Prim2SF_infinity : Prim2SF infinity = S754_infinity false.
Proof. reflexivity. Qed.

Lemma Prim2SF_one : Prim2SF 1 = S754_finite false 4503599627370496 (-52).
Proof. reflexivity. Qed.

(** The reciprocal of a zero is an infinity. *)
Lemma reciprocal_of_zero (d : float) :
  is_zero d = true → is_infinity (1 / d) = true.
Proof.
  unfold is_zero, is_infinity.
  rewrite !FloatAxioms.eqb_spec, FloatAxioms.abs_spec, FloatAxioms.div_spec.
  rewrite Prim2SF_zero, Prim2SF_infinity, Prim2SF_one.
  by destruct (Prim2SF d) as [[]|[]| |[] m e].
Qed.

(** A finite factor times a zero is a zero. *)
Lemma finite_mul_zero (k t : float) :
  is_finite k = true → is_zero t = true → is_zero (k * t) = true.
Proof.
  unfold is_finite, is_nan, is_infinity, is_zero.
  rewrite !FloatAxioms.eqb_spec, FloatAxioms.abs_spec, FloatAxioms.mul_spec.
  rewrite Prim2SF_zero, Prim2SF_infinity.
  destruct (Prim2SF t) as [[]|[]| |[] mt et]; try done;
    by destruct (Prim2SF k) as [[]|[]| |[] mk ek].
Qed.

(** ** LevelBoltzmannFactor *)

Section level_boltzmann_factor.
Variable exp : float → float.

(** C5.  For every levels table and every [beta_rad], [calculate]
    returns a table (the shape check of the DataFrame constructor never
    fails) whose row index is the row index of [levels], whose columns
    are labelled [0 .. len(beta_rad) - 1], which has one row per level and
    one entry per element of [beta_rad], and whose entry at row [k],
    column [c] is the double [g_k * exp(-energy_k * beta_rad_c)]. *)
Theorem level_boltzmann_factor_calculate
    (levels : list level) (beta_rad : list float) :
  ∃ f : frame,
    LevelBoltzmannFactor.calculate exp levels beta_rad = Ok f ∧
    index f = lkey <$> levels ∧
    columns f = Z.of_nat <$> seq 0 (length beta_rad) ∧
    length (values f) = length levels ∧
    Forall (λ row, length row = length beta_rad) (values f) ∧
    ∀ k c l b, levels !! k = Some l → beta_rad !! c = Some b →
      values f !! k ≫= (λ row, row !! c) = Some (g l * exp (- energy l * b)).
Proof.
  unfold LevelBoltzmannFactor.calculate, DataFrame. simpl.
  rewrite decide_True; last first.
  { unfold arange, neg. rewrite length_zip_with, !length_fmap, length_seq. lia. }
  eexists. split; [done|]. simpl.
  split; [done|]. split; [done|].
  split; [rewrite length_zip_with, !length_fmap; lia|].
  split.
  - apply Forall_forall. intros row Hrow.
    apply list_elem_of_lookup in Hrow as [k Hk].
    apply lookup_zip_with_Some in Hk as (gk & r & -> & _ & Hr).
    rewrite !list_lookup_fmap in Hr.
    destruct (levels !! k) as [l|]; [|done]. simpl in Hr.
    injection Hr as <-. unfold neg. by rewrite !length_fmap.
  - intros k c l b Hl Hb.
    rewrite lookup_zip_with, !list_lookup_fmap, Hl. simpl.
    unfold neg. rewrite !list_lookup_fmap, Hb. simpl.
    by rewrite mul_opp_swap.
Qed.

End level_boltzmann_factor.

(** ** BetaRadiation *)

Lemma beta_radiation_calculate_map k t_rad :
  BetaRadiation.calculate k t_rad = (λ t, 1 / (k * t)) <$> t_rad.
Proof.
  unfold BetaRadiation.calculate. rewrite <- list_fmap_compose. done.
Qed.

Lemma beta_radiation_update k n ctx t log :
  k_B_cgs n = Some k →
  BasePlasmaProperty.update BetaRadiation.class (<["t_rad" := PArray t]> ctx)
    {| self := n; reads := log |} =
  (Ok tt, {| self := set_value (PArray (BetaRadiation.calculate k t)) n;
             reads := log |}).
Proof.
  intros Hk. unfold BasePlasmaProperty.update. simpl.
  unfold BasePlasmaProperty.resolve. rewrite lookup_insert_eq.
  unfold BetaRadiation.calculate_method, get_self, assign_value, mbind,
    M_bind, mret, M_ret. simpl. by rewrite Hk.
Qed.

(** Whole-kelvin temperatures: the quotients decrease strictly along
    1 K, 2 K, ..., so two of them with different temperatures differ. *)
Example kelvin_literals :
  kelvin 1 = 1 ∧ kelvin 5000 = 5000 ∧ kelvin 12000 = 12000 ∧
  kelvin 100000 = 100000.
Proof. repeat split; reflexivity. Qed.

Lemma decreasing_from_spec k fuel z bound :
  decreasing_from k fuel z bound = true →
  (∀ i, (z ≤ i < z + Z.of_nat fuel)%Z →
     (Uint63.to_Z (quotient_key (1 / (k * kelvin i))) <
      Uint63.to_Z bound)%Z) ∧
  (∀ i j, (z ≤ i)%Z → (i < j)%Z → (j < z + Z.of_nat fuel)%Z →
     (Uint63.to_Z (quotient_key (1 / (k * kelvin j))) <
      Uint63.to_Z (quotient_key (1 / (k * kelvin i))))%Z).
Proof.
  revert z bound. induction fuel as [|fuel IH]; intros z bound H.
  - split; intros; lia.
  - cbn [decreasing_from] in H. cbv zeta in H.
    destruct (PrimInt63.ltb (quotient_key (1 / (k * kelvin z))) bound)
      eqn:Hlt; [|done].
    apply Uint63Axioms.ltb_spec in Hlt.
    destruct (IH _ _ H) as [IH1 IH2]. split.
    + intros i Hi. destruct (decide (i = z)) as [->|Hne]; [done|].
      eapply Z.lt_trans; [apply IH1; lia|done].
    + intros i j Hi Hij Hj. destruct (decide (i = z)) as [->|Hne].
      * apply IH1. lia.
      * apply IH2; lia.
Qed.

Lemma whole_kelvin_decreasing_2010 :
  decreasing_from k_B_2010 (Z.to_nat 100000) 1 (Uint63.of_Z (2 ^ 62)) = true.
Proof. vm_compute. reflexivity. Qed.

Lemma whole_kelvin_decreasing_2018 :
  decreasing_from k_B_2018 (Z.to_nat 100000) 1 (Uint63.of_Z (2 ^ 62)) = true.
Proof. vm_compute. reflexivity. Qed.

Lemma whole_kelvin_quotient_inj k t1 t2 :
  k = k_B_2010 ∨ k = k_B_2018 → whole_kelvin t1 → whole_kelvin t2 →
  1 / (k * t1) = 1 / (k * t2) → t1 = t2.
Proof.
  intros Hk (z1 & Hz1 & ->) (z2 & Hz2 & ->) Hq.
  assert (decreasing_from k (Z.to_nat 100000) 1 (Uint63.of_Z (2 ^ 62)) = true)
    as Hdec.
  { destruct Hk as [->| ->];
      [apply whole_kelvin_decreasing_2010|apply whole_kelvin_decreasing_2018]. }
  destruct (decreasing_from_spec _ _ _ _ Hdec) as [_ Hlt].
  rewrite Z2Nat.id in Hlt by lia.
  destruct (Z.lt_trichotomy z1 z2) as [H|[->|H]]; [|done|].
  - specialize (Hlt z1 z2). rewrite Hq in Hlt. lia.
  - specialize (Hlt z2 z1). rewrite Hq in Hlt. lia.
Qed.

Lemma beta_radiation_whole_kelvin_inj k T1 T2 :
  k = k_B_2010 ∨ k = k_B_2018 →
  Forall whole_kelvin T1 → Forall whole_kelvin T2 →
  BetaRadiation.calculate k T1 = BetaRadiation.calculate k T2 → T1 = T2.
Proof.
  intros Hk H1. rewrite !beta_radiation_calculate_map.
  revert T2. induction H1 as [|t1 T1 Ht1 _ IH]; intros T2 H2 Heq.
  - by destruct T2.
  - destruct H2 as [|t2 T2 Ht2 H2]; [done|].
    rewrite !fmap_cons in Heq. injection Heq as Hq Heq.
    f_equal; [by apply (whole_kelvin_quotient_inj k)|by apply IH].
Qed.

(** C6 (as amended).  [calculate] returns, element by element, the double
    [1 / (k_B * t)], with [k_B] the constant stored at construction.
    [update] keeps nothing from earlier calls: whatever value the node
    held, after [update] its [value] is the result for the [t_rad] the
    context holds at the time of the call (the other attributes and the
    read log are as before), so after two updates [value] is the result
    for the latest [t_rad].  Two vectors of different lengths give
    different results; and with the CODATA 2010 or 2018 constant, two
    distinct vectors of whole-kelvin temperatures from 1 K to 100000 K
    give different results.  (Without a restriction distinct temperatures
    may round to the same quotient.) *)
Theorem beta_radiation_calculate_latest
    (k : float) (n : node) (ctx1 ctx2 : gmap string pyval)
    (T1 T2 : list float) (log : list string) :
  k_B_cgs n = Some k →
  BetaRadiation.calculate k T1 = (λ t, 1 / (k * t)) <$> T1 ∧
  (∀ c, BetaRadiation.calculate k T1 !! c =
          (λ t, 1 / (k * t)) <$> T1 !! c) ∧
  (BasePlasmaProperty.update BetaRadiation.class
     (<["t_rad" := PArray T1]> ctx1) {| self := n; reads := log |}).1 =
    Ok tt ∧
  value
    (self (BasePlasmaProperty.update BetaRadiation.class
             (<["t_rad" := PArray T1]> ctx1)
             {| self := n; reads := log |}).2) =
    Some (PArray (BetaRadiation.calculate k T1)) ∧
  same_but_value n
    (self (BasePlasmaProperty.update BetaRadiation.class
             (<["t_rad" := PArray T1]> ctx1)
             {| self := n; reads := log |}).2) ∧
  reads
    (BasePlasmaProperty.update BetaRadiation.class
       (<["t_rad" := PArray T1]> ctx1) {| self := n; reads := log |}).2 =
    log ∧
  ((BasePlasmaProperty.update BetaRadiation.class
      (<["t_rad" := PArray T1]> ctx1) ≫= λ _,
    BasePlasmaProperty.update BetaRadiation.class
      (<["t_rad" := PArray T2]> ctx2)) {| self := n; reads := log |}).1 =
    Ok tt ∧
  value
    (self ((BasePlasmaProperty.update BetaRadiation.class
              (<["t_rad" := PArray T1]> ctx1) ≫= λ _,
            BasePlasmaProperty.update BetaRadiation.class
              (<["t_rad" := PArray T2]> ctx2))
             {| self := n; reads := log |}).2) =
    Some (PArray (BetaRadiation.calculate k T2)) ∧
  (length T1 ≠ length T2 →
   BetaRadiation.calculate k T1 ≠ BetaRadiation.calculate k T2) ∧
  (k = k_B_2010 ∨ k = k_B_2018 →
   Forall whole_kelvin T1 → Forall whole_kelvin T2 → T1 ≠ T2 →
   BetaRadiation.calculate k T1 ≠ BetaRadiation.calculate k T2).
Proof.
  intros Hk. split; [apply beta_radiation_calculate_map|].
  split; [intros c; by rewrite beta_radiation_calculate_map, list_lookup_fmap|].
  rewrite (bind_Ok _ _ _ _ _ (beta_radiation_update k n ctx1 T1 log Hk)).
  rewrite (beta_radiation_update k n ctx1 T1 log Hk).
  rewrite (beta_radiation_update k _ ctx2 T2 log) by done.
  cbn [fst snd self reads value set_value].
  split; [done|]. split; [done|].
  split; [by unfold same_but_value; destruct n|].
  split; [done|]. split; [done|]. split; [done|]. split.
  - intros Hlen Heq. apply Hlen.
    apply (f_equal length) in Heq.
    by rewrite !beta_radiation_calculate_map, !length_fmap in Heq.
  - intros Hc H1 H2 Hne Heq. apply Hne.
    by apply (beta_radiation_whole_kelvin_inj k).
Qed.

Lemma beta_radiation_calculate_latest_witness :
  k_B_cgs (BetaRadiation.init k_B_2010) = Some k_B_2010 ∧
  value
    (self (BasePlasmaProperty.update BetaRadiation.class
             (<["t_rad" := PArray [10000]]> ∅)
             {| self := BetaRadiation.init k_B_2010; reads := [] |}).2) =
    Some (PArray [1 / (k_B_2010 * 10000)]) ∧
  value
    (self ((BasePlasmaProperty.update BetaRadiation.class
              (<["t_rad" := PArray [10000]]> ∅) ≫= λ _,
            BasePlasmaProperty.update BetaRadiation.class
              (<["t_rad" := PArray [5000]]> ∅))
             {| self := BetaRadiation.init k_B_2010; reads := [] |}).2) =
    Some (PArray [1 / (k_B_2010 * 5000)]) ∧
  BetaRadiation.calculate k_B_2010 [10000] ≠
  BetaRadiation.calculate k_B_2010 [5000].
Proof.
  pose proof (beta_radiation_calculate_latest k_B_2010
                (BetaRadiation.init k_B_2010) ∅ ∅ [10000] [5000] []
                eq_refl)
    as (_ & _ & _ & Hone & _ & _ & _ & Htwo & _ & Hdistinct).
  split; [reflexivity|]. split; [exact Hone|]. split; [exact Htwo|].
  apply Hdistinct.
  - left. reflexivity.
  - constructor; [|constructor]. exists 10000%Z. split; [lia|reflexivity].
  - constructor; [|constructor]. exists 5000%Z. split; [lia|reflexivity].
  - intros H. apply (f_equal (fmap Prim2SF)) in H. vm_compute in H.
    discriminate H.
Defined.

(** C6, counterexample.  The temperatures 12000 K and the next double
    above it (12000.000000000002 K) are distinct, and [calculate] maps
    them to the same double: "distinct inputs give distinct outputs"
    does not hold. *)
Lemma beta_radiation_distinct_inputs_equal_outputs :
  [12000] ≠ [0x1.7700000000001p+13] ∧
  BetaRadiation.calculate k_B_2010 [12000] =
  BetaRadiation.calculate k_B_2010 [0x1.7700000000001p+13].
Proof.
  split; [|reflexivity].
  intros H. apply (f_equal (fmap Prim2SF)) in H. vm_compute in H.
  discriminate H.
Qed.

(** The same with the CODATA 2018 constant, one double further up. *)
Example beta_radiation_equal_outputs_2018 :
  [0x1.7700000000001p+13] ≠ [0x1.7700000000002p+13] ∧
  BetaRadiation.calculate k_B_2018 [0x1.7700000000001p+13] =
  BetaRadiation.calculate k_B_2018 [0x1.7700000000002p+13].
Proof.
  split; [|reflexivity].
  intros H. apply (f_equal (fmap Prim2SF)) in H. vm_compute in H.
  discriminate H.
Qed.

(** C10 (as amended).  The division is not guarded: [calculate] has no
    error branch, it returns one entry per element of [t_rad] and the
    entry is the double [1 / (k_B * t)] whatever [t] is.  The divisor is
    the product [k_B * t]: where it is a zero the entry is an infinity,
    and with a finite [k_B] this happens at every zero entry of
    [t_rad]. *)
Theorem beta_radiation_division_unguarded (k : float) (t_rad : list float) :
  length (BetaRadiation.calculate k t_rad) = length t_rad ∧
  (∀ c t, t_rad !! c = Some t →
     BetaRadiation.calculate k t_rad !! c = Some (1 / (k * t))) ∧
  (∀ c t, t_rad !! c = Some t → is_zero (k * t) = true →
     ∃ q, BetaRadiation.calculate k t_rad !! c = Some q ∧
          is_infinity q = true) ∧
  (∀ c t, t_rad !! c = Some t → is_finite k = true → is_zero t = true →
     is_zero (k * t) = true).
Proof.
  rewrite beta_radiation_calculate_map. split; [by rewrite length_fmap|].
  split; [intros c t Ht; by rewrite list_lookup_fmap, Ht|].
  split.
  - intros c t Ht Hz. exists (1 / (k * t)).
    split; [by rewrite list_lookup_fmap, Ht|]. by apply reciprocal_of_zero.
  - intros c t _. apply finite_mul_zero.
Qed.

(** C10, counterexample.  The smallest positive double is a nonzero
    temperature, yet its product with [k_B] underflows to zero and the
    entry computed for it is a division by zero: an all-nonzero [t_rad]
    does not make the division well defined. *)
Lemma beta_radiation_nonzero_entry_divides_by_zero :
  Forall (λ t, is_zero t = false) [0x1p-1074] ∧
  is_zero (k_B_2010 * 0x1p-1074) = true ∧
  BetaRadiation.calculate k_B_2010 [0x1p-1074] = [infinity].
Proof. split; [by repeat constructor|]. split; reflexivity. Qed.

(** ** PartitionFunction *)

(** *** Grouping *)

Lemma rows_of_species_snoc sp rs p :
  rows_of_species sp (rs ++ [p]) =
  rows_of_species sp rs ++ (if decide (species_of p.1 = sp) then [p.2] else []).
Proof.
  unfold rows_of_species. rewrite filter_app, fmap_app. f_equal.
  case_decide.
  - by rewrite filter_cons_True.
  - by rewrite filter_cons_False.
Qed.

Lemma lookup_group_rows rs sp :
  group_rows rs !! sp =
  match rows_of_species sp rs with [] => None | block => Some block end.
Proof.
  induction rs as [|p rs IH] using rev_ind; [done|].
  unfold group_rows in *. rewrite foldl_app. simpl.
  rewrite rows_of_species_snoc. case_decide as Hsp.
  - subst sp. rewrite lookup_insert_eq, IH.
    destruct (rows_of_species _ rs) as [|r block]; simpl; [done|].
    by destruct (block ++ [p.2]) eqn:E; [destruct block|].
  - rewrite lookup_insert_ne by done. by rewrite IH, app_nil_r.
Qed.

Lemma lookup_groupby_sum red cols rs sp :
  srows (groupby_sum red cols rs) !! sp =
  match rows_of_species sp rs with
  | [] => None
  | block => Some (reduce_columns red (length cols) block)
  end.
Proof.
  unfold groupby_sum. simpl. rewrite lookup_fmap, lookup_group_rows.
  by destruct (rows_of_species sp rs).
Qed.

Lemma rows_of_species_select P sp table cols rws :
  rows_of_species sp
    (select_rows (P <$> table)
       {| index := lkey <$> table; columns := cols; values := rws |}) =
  level_rows P sp table rws.
Proof.
  unfold rows_of_species, select_rows, level_rows. simpl.
  revert rws. induction table as [|l table IH]; intros [|r rws];
    try done.
  rewrite !fmap_cons. cbn [zip_with]. rewrite !filter_cons. cbn [fst snd].
  specialize (IH rws). destruct (P l) eqn:HP.
  - rewrite decide_True by done. rewrite fmap_cons, filter_cons. cbn [fst snd].
    destruct (decide (species_of (lkey l) = sp)).
    + rewrite decide_True by done. rewrite !fmap_cons. cbn [snd].
      by rewrite IH.
    + rewrite decide_False by (by intros [_ ?]). by rewrite IH.
  - rewrite decide_False by done.
    rewrite decide_False by (intros [? _]; congruence).
    by rewrite IH.
Qed.

Lemma mul_column_exp_outer exp lv b :
  rows (mul_column (g <$> lv) (ufunc exp (outer (energy <$> lv) (neg b)))) =
  weighted_rows exp lv b.
Proof.
  unfold weighted_rows, mul_column, ufunc, outer, neg. cbn [rows].
  rewrite <- !list_fmap_compose, zip_with_fmap_l, zip_with_fmap_r.
  rewrite zip_with_diag. apply list_fmap_ext. intros _ l _. simpl.
  by rewrite <- !list_fmap_compose.
Qed.

(** *** The aggregation of lines 121-134 *)

Section partition_function_aggregation.
Variables (exp : float → float) (group_sum frame_sum : list float → float).
Variable globals : gmap string pyval.
(** The [levels] argument and the table of [self.atom_data.levels]; the
    arrays held by the node. *)
Variables (lv al : list level) (b t w : list float).
Variables (n : node) (ad : gmap string pyval).
Hypothesis Hb : beta_rads n = Some (PArray b).
Hypothesis Ht : t_rads n = Some (PArray t).
Hypothesis Hw : ws n = Some (PArray w).
Hypothesis Had : atom_data n = Some (PObject ad).
Hypothesis Hal : ad !! "levels" = Some (PLevels al).
(** The shapes agree. *)
Hypothesis Hlv : length lv = length al.
Hypothesis Hlt : length b = length t.
Hypothesis Hlw : length w = length t.

Let lpp : frame := weighted_frame exp lv al b t.
Let W : list (list float) := weighted_rows exp lv b.
Let non_metastable : level → bool := λ l, negb (metastable l).
Let sums : list (list float) → list float :=
  reduce_columns group_sum (length t).
Let meta_sum : species_frame :=
  groupby_sum group_sum (columns lpp) (select_rows (metastable <$> al) lpp).
Let non_meta_sum : species_frame :=
  groupby_sum group_sum (columns lpp)
    (select_rows (non_metastable <$> al) lpp).

Lemma atom_data_levels_Ok attr log :
  PartitionFunction.atom_data_levels attr {| self := n; reads := log |} =
  (Ok al, {| self := n; reads := "levels" :: log |}).
Proof.
  unfold PartitionFunction.atom_data_levels, self_attr, getattr, get_self,
    log_read, as_levels, mbind, M_bind, mret, M_ret. simpl.
  rewrite Had. simpl. by rewrite Hal.
Qed.

Lemma self_attr_Ok attr (proj : node → option pyval) v log :
  proj n = Some v →
  self_attr attr proj {| self := n; reads := log |} =
  (Ok v, {| self := n; reads := log |}).
Proof.
  intros H. unfold self_attr, get_self, mbind, M_bind, mret, M_ret. simpl.
  by rewrite H.
Qed.

Lemma DataFrame_weighted :
  DataFrame (mul_column (g <$> lv) (ufunc exp (outer (energy <$> lv) (neg b))))
            (lkey <$> al) (arange (length t)) = Ok lpp.
Proof.
  unfold DataFrame. rewrite mul_column_exp_outer. simpl.
  rewrite decide_True; [done|].
  unfold weighted_rows, arange, neg.
  by rewrite !length_fmap, length_seq.
Qed.

(** Lines 121-133 go through and leave the two grouped sums. *)
Lemma calculate_prefix lbf log :
  PartitionFunction.calculate exp group_sum frame_sum globals (PLevels lv) lbf
    {| self := n; reads := log |} =
  (scaled ← lift (scale_columns w non_meta_sum);
   pf ← lift (ix_iadd meta_sum scaled);
   pf' ← PartitionFunction.nlte_branch frame_sum globals pf;
   mret (PTuple [PFrame lpp; PSpeciesFrame pf']))
    {| self := n; reads := "levels" :: "levels" :: "levels" :: log |}.
Proof.
  unfold PartitionFunction.calculate. cbv zeta.
  erewrite bind_Ok by reflexivity.
  erewrite bind_Ok by reflexivity.
  erewrite bind_Ok by (by apply self_attr_Ok).
  erewrite bind_Ok by reflexivity.
  erewrite bind_Ok by apply atom_data_levels_Ok.
  erewrite bind_Ok by (by apply self_attr_Ok).
  erewrite bind_Ok by reflexivity.
  rewrite DataFrame_weighted.
  erewrite bind_Ok by reflexivity.
  erewrite bind_Ok by apply atom_data_levels_Ok.
  erewrite bind_Ok by (by apply self_attr_Ok).
  erewrite bind_Ok by apply atom_data_levels_Ok.
  erewrite bind_Ok by reflexivity.
  done.
Qed.

Lemma lookup_meta_sum sp :
  srows meta_sum !! sp =
  match level_rows metastable sp al W with
  | [] => None
  | block => Some (sums block)
  end.
Proof.
  unfold meta_sum. rewrite lookup_groupby_sum.
  unfold lpp, weighted_frame. rewrite rows_of_species_select. simpl.
  unfold sums, arange. by rewrite length_fmap, length_seq.
Qed.

Lemma lookup_non_meta_sum sp :
  srows non_meta_sum !! sp =
  match level_rows non_metastable sp al W with
  | [] => None
  | block => Some (sums block)
  end.
Proof.
  unfold non_meta_sum. rewrite lookup_groupby_sum.
  unfold lpp, weighted_frame. rewrite rows_of_species_select. simpl.
  unfold sums, arange. by rewrite length_fmap, length_seq.
Qed.

Lemma scale_columns_non_meta :
  scale_columns w non_meta_sum =
  Ok {| scolumns := arange (length t);
        srows := (λ row, zip_with (λ a x, a * x) w row) <$>
                   srows non_meta_sum |}.
Proof.
  unfold scale_columns. rewrite decide_True; [done|].
  simpl. unfold arange. by rewrite length_fmap, length_seq.
Qed.

Lemma nlte_branch_None pf s :
  nlte_config (self s) = Some PNone →
  PartitionFunction.nlte_branch frame_sum globals pf s = (Ok pf, s).
Proof.
  intros H. unfold PartitionFunction.nlte_branch, self_attr, get_self,
    mbind, M_bind, mret, M_ret. simpl. by rewrite H.
Qed.

(** A species with a non-metastable level and no metastable level: the
    in-place addition of line 134 raises [KeyError]. *)
Lemma calculate_missing_metastable sp lbf log :
  level_rows non_metastable sp al W ≠ [] →
  level_rows metastable sp al W = [] →
  PartitionFunction.calculate exp group_sum frame_sum globals (PLevels lv) lbf
    {| self := n; reads := log |} =
  (Raise KeyError,
   {| self := n; reads := "levels" :: "levels" :: "levels" :: log |}).
Proof.
  intros Hnm Hm. rewrite calculate_prefix, scale_columns_non_meta.
  erewrite bind_Ok by reflexivity.
  apply bind_Raise. unfold ix_iadd. rewrite decide_False; [done|].
  simpl. intros Hsub. specialize (Hsub sp).
  rewrite !elem_of_dom, lookup_fmap, lookup_non_meta_sum, lookup_meta_sum, Hm
    in Hsub.
  destruct (level_rows non_metastable sp al W); [done|].
  by destruct Hsub as [? ?].
Qed.

(** X1.  The aggregation of lines 121-134, without an override set.
    When the shapes agree and every species that has a non-metastable
    level also has a metastable one,
    [calculate] returns the per-level weighted table together with a
    table that has one row per species with a metastable level: the
    column sums of its metastable rows, plus, when it has non-metastable
    rows, [ws] times the column sums of those. *)
Theorem partition_function_aggregate (lbf : pyval) (log : list string) :
  nlte_config n = Some PNone →
  (∀ sp, level_rows non_metastable sp al W ≠ [] →
         level_rows metastable sp al W ≠ []) →
  ∃ pf,
    PartitionFunction.calculate exp group_sum frame_sum globals
      (PLevels lv) lbf {| self := n; reads := log |} =
    (Ok (PTuple [PFrame lpp; PSpeciesFrame pf]),
     {| self := n; reads := "levels" :: "levels" :: "levels" :: log |}) ∧
    scolumns pf = arange (length t) ∧
    ∀ sp, srows pf !! sp =
      match level_rows metastable sp al W with
      | [] => None
      | mblock =>
          Some match level_rows non_metastable sp al W with
               | [] => sums mblock
               | nblock =>
                   zip_with (λ x y, x + y) (sums mblock)
                     (zip_with (λ a x, a * x) w (sums nblock))
               end
      end.
Proof.
  intros Hcfg Hcover. rewrite calculate_prefix, scale_columns_non_meta.
  erewrite bind_Ok by reflexivity.
  unfold ix_iadd. rewrite decide_True; last first.
  { simpl. intros sp. rewrite !elem_of_dom, lookup_fmap, lookup_non_meta_sum,
      lookup_meta_sum. specialize (Hcover sp).
    destruct (level_rows non_metastable sp al W); [by intros [? ?]|].
    intros _. destruct (level_rows metastable sp al W); [|done].
    by destruct Hcover. }
  erewrite bind_Ok by reflexivity.
  erewrite bind_Ok by (by apply nlte_branch_None).
  eexists. split; [reflexivity|]. split; [done|]. intros sp. cbn [srows].
  rewrite lookup_union_with, lookup_fmap, lookup_non_meta_sum, lookup_meta_sum.
  destruct (level_rows metastable sp al W) as [|m mblock] eqn:Hm.
  - specialize (Hcover sp). rewrite Hm in Hcover.
    destruct (level_rows non_metastable sp al W); [done|]. by destruct Hcover.
  - by destruct (level_rows non_metastable sp al W).
Qed.

End partition_function_aggregation.

Lemma two_level_cover exp sp :
  level_rows (λ l, negb (metastable l)) sp (two_level_table true)
    (weighted_rows exp (two_level_table true) [1]) ≠ [] →
  level_rows metastable sp (two_level_table true)
    (weighted_rows exp (two_level_table true) [1]) ≠ [].
Proof.
  unfold level_rows, two_level_table, weighted_rows. cbn [fmap list_fmap zip_with].
  rewrite !filter_cons, !filter_nil. cbn [fst snd lkey metastable negb].
  destruct (decide (species_of (1, 0, 0)%Z = sp)) as [<-|Hne].
  - intros _. rewrite decide_True by done. done.
  - intros H. exfalso. apply H.
    rewrite decide_False by (by intros [? _]).
    rewrite decide_False by (by intros [_ ?]). done.
Qed.

Lemma partition_function_aggregate_witness :
  ∃ pf,
    PartitionFunction.calculate scenario_exp scenario_sum scenario_sum
      module_globals (PLevels (two_level_table true)) PNone
      {| self := two_level_node true PNone; reads := [] |} =
    (Ok (PTuple
           [PFrame (weighted_frame scenario_exp (two_level_table true)
                      (two_level_table true) [1] [10000]);
            PSpeciesFrame pf]),
     {| self := two_level_node true PNone;
        reads := ["levels"; "levels"; "levels"] |}) ∧
    srows pf !! (1, 0)%Z = Some [0x1.5e2d58d8b3bcep+0].
Proof.
  destruct (partition_function_aggregate scenario_exp scenario_sum
              scenario_sum module_globals
              (two_level_table true) (two_level_table true) [1] [10000] [0.5]
              (two_level_node true PNone)
              {[ "levels" := PLevels (two_level_table true) ]}
              eq_refl eq_refl eq_refl eq_refl eq_refl eq_refl eq_refl eq_refl
              PNone [] eq_refl (two_level_cover _))
    as (pf & Hrun & _ & Hrows).
  exists pf. split; [exact Hrun|]. rewrite Hrows. reflexivity.
Defined.

(** *** The declared input and the two scenarios *)

Section partition_function.
Variables (exp : float → float) (group_sum frame_sum : list float → float).

(** C9.  The argument [level_boltzmann_factor] plays no part in
    [calculate]: two calls that differ only in it behave the same (same
    result or same exception, same final state), and so do two [update]
    calls whose contexts differ only in the value bound to
    [level_boltzmann_factor]. *)
Theorem partition_function_ignores_level_boltzmann_factor
    (globals : gmap string pyval) :
  (∀ levels lbf1 lbf2 s,
     PartitionFunction.calculate exp group_sum frame_sum globals
       levels lbf1 s =
     PartitionFunction.calculate exp group_sum frame_sum globals
       levels lbf2 s) ∧
  (∀ ctx lbf1 lbf2 s,
     BasePlasmaProperty.update
       (PartitionFunction.class exp group_sum frame_sum globals)
       (<["level_boltzmann_factor" := lbf1]> ctx) s =
     BasePlasmaProperty.update
       (PartitionFunction.class exp group_sum frame_sum globals)
       (<["level_boltzmann_factor" := lbf2]> ctx) s).
Proof.
  split; [done|]. intros ctx lbf1 lbf2 s.
  unfold BasePlasmaProperty.update. simpl.
  unfold BasePlasmaProperty.resolve.
  rewrite !lookup_insert_eq, !lookup_insert_ne by done.
  destruct (ctx !! "levels") as [levels|]; [|done].
  unfold mbind, M_bind, mret, M_ret, raise. simpl. done.
Qed.

(** C7 (the code departs from the claim).  In the scenario no level is
    metastable, so the grouped sum of the metastable rows has no row for
    the species; the in-place addition of the non-metastable sum at
    line 134 then raises [KeyError], and [calculate] returns neither the
    per-level table nor a partition function. *)
Theorem partition_function_two_level_scenario (lbf : pyval) :
  (run (PartitionFunction.calculate exp group_sum frame_sum module_globals
          (PLevels (two_level_table false)) lbf)
       (two_level_node false PNone)).1 = Raise KeyError.
Proof. vm_compute. reflexivity. Qed.

Section nlte.
Variables (cfg : gmap string pyval) (sp : pyval) (rest : list pyval).
Hypothesis Hspecies : cfg !! "species" = Some (PList (sp :: rest)).

(** Lines 135-139 with a configured, non-empty override set: the third
    operand of the condition names a variable that is bound nowhere. *)
Lemma nlte_branch_NameError pf s :
  nlte_config (self s) = Some (PObject cfg) →
  PartitionFunction.nlte_branch frame_sum module_globals pf s =
  (Raise (NameError "initialize_nlte"),
   {| self := self s; reads := "species" :: reads s |}).
Proof.
  intros Hcfg.
  unfold PartitionFunction.nlte_branch, self_attr, getattr, get_self,
    log_read, mbind, M_bind, mret, M_ret, raise. simpl.
  rewrite Hcfg. simpl. by rewrite Hspecies.
Qed.

Lemma raises_bind_config {A B} (m : M A) (f : A → M B) s :
  preserves m →
  nlte_config (self s) = Some (PObject cfg) →
  (∀ a s', nlte_config (self s') = Some (PObject cfg) → raises (f a) s') →
  raises (m ≫= f) s.
Proof.
  intros Hm Hs Hf. apply raises_bind. intros a s' Hms. apply Hf.
  specialize (Hm s). rewrite Hms in Hm. simpl in Hm.
  destruct Hm as (_&_&_&_&_&->&_). done.
Qed.

Lemma calculate_raises_with_config levels lbf s :
  nlte_config (self s) = Some (PObject cfg) →
  raises (PartitionFunction.calculate exp group_sum frame_sum module_globals
            levels lbf) s.
Proof.
  intros Hs. unfold PartitionFunction.calculate.
  repeat (apply raises_bind_config;
          [solve [auto using preserves_atom_data_levels with preserves]
          |done|clear s Hs; intros ? s Hs]).
  eexists _, _. apply bind_Raise. by apply nlte_branch_NameError.
Qed.

(** C8 (the code departs from the claim).  With an override set that is
    configured and not empty, [calculate] never returns: when the steps
    before line 135 go through, evaluating the condition raises
    [NameError] for [initialize_nlte], so no entry is replaced. *)
Theorem partition_function_nlte_override_raises
    (levels lbf : pyval) (n : node) (log : list string) :
  nlte_config n = Some (PObject cfg) →
  raises (PartitionFunction.calculate exp group_sum frame_sum module_globals
            levels lbf) {| self := n; reads := log |} ∧
  ∀ pf, PartitionFunction.nlte_branch frame_sum module_globals pf
          {| self := n; reads := log |} =
        (Raise (NameError "initialize_nlte"),
         {| self := n; reads := "species" :: log |}).
Proof.
  intros Hn. split; [by apply calculate_raises_with_config|].
  intros pf. by apply nlte_branch_NameError.
Qed.

End nlte.
End partition_function.

Lemma partition_function_nlte_override_raises_witness :
  raises (PartitionFunction.calculate scenario_exp scenario_sum scenario_sum
            module_globals (PLevels (two_level_table true)) PNone)
    {| self := two_level_node true (PObject override_config);
       reads := [] |} ∧
  ∀ pf, PartitionFunction.nlte_branch scenario_sum module_globals pf
          {| self := two_level_node true (PObject override_config);
             reads := [] |} =
        (Raise (NameError "initialize_nlte"),
         {| self := two_level_node true (PObject override_config);
            reads := ["species"] |}).
Proof.
  apply (partition_function_nlte_override_raises scenario_exp scenario_sum
           scenario_sum override_config (PTuple [PInt 1; PInt 0]) []);
    reflexivity.
Defined.

(** The override scenario run from start to end: the ground level is
    metastable, so line 134 goes through, and the condition of line 135
    raises. *)
Example partition_function_nlte_scenario :
  (run (PartitionFunction.calculate scenario_exp scenario_sum scenario_sum
          module_globals (PLevels (two_level_table true)) PNone)
       (two_level_node true (PObject override_config))).1 =
  Raise (NameError "initialize_nlte").
Proof. vm_compute. reflexivity. Qed.

(** With [initialize_nlte] bound to [False] in the module namespace and
    level populations 4 and 2 for the two levels, the loop of lines
    136-139 runs and replaces the entry of the species by
    [g_0 * (4/4 + 2/4)]. *)
Example partition_function_override_if_bound :
  (run (PartitionFunction.calculate scenario_exp scenario_sum scenario_sum
          (<["initialize_nlte" := PBool false]> module_globals)
          (PLevels (two_level_table true)) PNone)
       {| value := None; k_B_cgs := None;
          beta_rads := Some (PArray [1]);
          t_rads := Some (PArray [10000]);
          ws := Some (PArray [0.5]);
          atom_data :=
            Some (PObject {[ "levels" := PLevels (two_level_table true) ]});
          nlte_config := Some (PObject override_config);
          level_populations :=
            Some (PFrame {| index := [(1, 0, 0)%Z; (1, 0, 1)%Z];
                            columns := [0%Z]; values := [[4]; [2]] |}) |}).1 =
  Ok (PTuple
        [PFrame (weighted_frame scenario_exp (two_level_table true)
                   (two_level_table true) [1] [10000]);
         PSpeciesFrame {| scolumns := [0%Z];
                          srows := {[ (1, 0)%Z := [1.5] ]} |}]).
Proof. vm_compute. reflexivity. Qed.

(** * Further properties *)

(** ** Independence of a method from part of the state *)

Section blind.
Variable g : store → store.
Hypothesis g_log : ∀ a s,
  g {| self := self s; reads := a :: reads s |} =
  {| self := self (g s); reads := a :: reads (g s) |}.

Lemma blind_ret {A} (a : A) : blind g (mret a).
Proof. done. Qed.

Lemma blind_raise {A} e : blind g (@raise A e).
Proof. done. Qed.

Lemma blind_bind {A B} (m : M A) (f : A → M B) :
  blind g m → (∀ a, blind g (f a)) → blind g (m ≫= f).
Proof.
  intros Hm Hf s. unfold mbind, M_bind. rewrite Hm.
  destruct (m s) as [[a|e] s']; simpl; [apply Hf | done].
Qed.

Lemma blind_log_read attr : blind g (log_read attr).
Proof. intros s. unfold log_read. simpl. by rewrite g_log. Qed.

Lemma blind_lift {A} (r : result A) : blind g (lift r).
Proof. by destruct r. Qed.

Lemma blind_self_attr attr proj :
  (∀ s, proj (self (g s)) = proj (self s)) → blind g (self_attr attr proj).
Proof.
  intros Hp s. unfold self_attr, get_self, mbind, M_bind. simpl.
  rewrite Hp. by destruct (proj (self s)).
Qed.

Ltac blind_step :=
  match goal with
  | |- blind _ (mbind _ _) => apply blind_bind; [|intros ?]
  | |- blind _ (_ ≫= _) => apply blind_bind; [|intros ?]
  | |- blind _ (match ?x with _ => _ end) => destruct x
  | |- blind _ (if ?x then _ else _) => destruct x
  | |- blind _ _ =>
      solve [auto using blind_ret, blind_raise, blind_log_read, blind_lift,
               blind_self_attr]
  end.

Lemma blind_getattr obj attr : blind g (getattr obj attr).
Proof. unfold getattr. repeat blind_step. Qed.

Lemma blind_truthy v : blind g (truthy v).
Proof. unfold truthy. repeat blind_step. Qed.

Lemma blind_as_levels attr v : blind g (as_levels attr v).
Proof. unfold as_levels. repeat blind_step. Qed.

Lemma blind_as_array v : blind g (as_array v).
Proof. unfold as_array. repeat blind_step. Qed.

Lemma blind_len v : blind g (len v).
Proof. unfold len. repeat blind_step. Qed.

Lemma blind_resolve_all ctx items :
  blind g (BasePlasmaProperty.resolve_all ctx items).
Proof.
  induction items as [|item items IH]; simpl; [apply blind_ret|].
  unfold BasePlasmaProperty.resolve. repeat blind_step.
Qed.

Lemma blind_beta_radiation t_rad :
  (∀ s, k_B_cgs (self (g s)) = k_B_cgs (self s)) →
  blind g (BetaRadiation.calculate_method t_rad).
Proof.
  intros Hk s. unfold BetaRadiation.calculate_method, get_self, mbind, M_bind.
  simpl. rewrite Hk. destruct (k_B_cgs (self s)); [|done].
  by destruct t_rad.
Qed.

Lemma blind_level_boltzmann_factor exp levels beta_rad :
  blind g (LevelBoltzmannFactor.calculate_method exp levels beta_rad).
Proof.
  pose proof blind_as_levels. pose proof blind_as_array.
  unfold LevelBoltzmannFactor.calculate_method. repeat blind_step.
Qed.

Section partition_function.
Variables (exp : float → float) (group_sum frame_sum : list float → float).
Variable globals : gmap string pyval.
Hypothesis g_beta : ∀ s, beta_rads (self (g s)) = beta_rads (self s).
Hypothesis g_t : ∀ s, t_rads (self (g s)) = t_rads (self s).
Hypothesis g_ws : ∀ s, ws (self (g s)) = ws (self s).
Hypothesis g_atom : ∀ s, atom_data (self (g s)) = atom_data (self s).

Lemma blind_atom_data_levels attr :
  blind g (PartitionFunction.atom_data_levels attr).
Proof.
  pose proof blind_getattr. pose proof blind_as_levels.
  unfold PartitionFunction.atom_data_levels. repeat blind_step.
Qed.

Hypothesis g_pops :
  ∀ s, level_populations (self (g s)) = level_populations (self s).

Lemma blind_override pf species :
  blind g (PartitionFunction.override frame_sum pf species).
Proof.
  pose proof blind_atom_data_levels.
  unfold PartitionFunction.override, PartitionFunction.as_species,
    PartitionFunction.as_frame.
  repeat blind_step.
Qed.

Lemma blind_override_all species pf :
  blind g (PartitionFunction.override_all frame_sum pf species).
Proof.
  revert pf. induction species as [|sp rest IH]; intros pf; simpl.
  - apply blind_ret.
  - apply blind_bind; [apply blind_override | done].
Qed.

Hypothesis g_cfg : ∀ s, nlte_config (self (g s)) = nlte_config (self s).

Lemma blind_nlte_branch pf :
  blind g (PartitionFunction.nlte_branch frame_sum globals pf).
Proof.
  pose proof blind_override_all. pose proof blind_getattr.
  pose proof blind_truthy.
  unfold PartitionFunction.nlte_branch, PartitionFunction.ne_empty_list,
    PartitionFunction.load_name.
  repeat blind_step.
Qed.

Lemma blind_partition_function levels lbf :
  blind g
    (PartitionFunction.calculate exp group_sum frame_sum globals levels lbf).
Proof.
  pose proof blind_atom_data_levels. pose proof blind_nlte_branch.
  pose proof blind_as_levels. pose proof blind_as_array. pose proof blind_len.
  unfold PartitionFunction.calculate. repeat blind_step.
Qed.

End partition_function.
End blind.

Lemma retarget_log f older a s :
  retarget f older {| self := self s; reads := a :: reads s |} =
  {| self := self (retarget f older s);
     reads := a :: reads (retarget f older s) |}.
Proof. done. Qed.

Lemma formula_concrete P : formula P → concrete P.
Proof. destruct 1; constructor. Qed.

(** The [calculate] of a formula class reads neither [self.value] nor,
    for its result, anything but the other attributes and its
    arguments. *)
Lemma formula_calculate_blind P args o older :
  formula P → blind (retarget (with_value o) older) (calculate P args).
Proof.
  destruct 1; simpl;
    repeat (match goal with
            | |- blind _ (match ?x with _ => _ end) => destruct x
            end);
    try apply blind_raise.
  - by apply blind_beta_radiation.
  - apply blind_level_boltzmann_factor.
  - apply blind_partition_function; solve [apply retarget_log|done].
Qed.

Lemma retarget_id s :
  retarget (with_value (value (self s))) [] s = s.
Proof. destruct s as [[] ?]. unfold retarget. simpl. by rewrite app_nil_r. Qed.

Lemma formula_calculate_readonly P args s :
  formula P → self (calculate P args s).2 = self s.
Proof.
  intros HP.
  pose proof (formula_calculate_blind P args (value (self s)) [] HP s) as Hb.
  rewrite retarget_id in Hb.
  pose proof (concrete_calculate_preserves P args (formula_concrete P HP) s)
    as (?&?&?&?&?&?&?).
  apply (f_equal snd) in Hb. simpl in Hb.
  apply (f_equal (λ s, value (self s))) in Hb. simpl in Hb.
  destruct (self (calculate P args s).2), (self s). simpl in *. congruence.
Qed.

(** The outcome of a formula [calculate] from any state, in terms of its
    run from the same attributes with no value and an empty log. *)
Lemma store_as_retarget n log :
  {| self := n; reads := log |} =
  retarget (with_value (value n)) log {| self := with_value None n; reads := [] |}.
Proof. by destruct n. Qed.

Lemma resolve_all_state ctx items s :
  (BasePlasmaProperty.resolve_all ctx items s).2 = s.
Proof.
  induction items as [|item items IH]; simpl; [done|].
  unfold BasePlasmaProperty.resolve, mbind, M_bind.
  destruct (ctx !! item); simpl; [|done].
  destruct (BasePlasmaProperty.resolve_all ctx items s) as [[vs|e] s'];
    simpl in *; by subst.
Qed.

Lemma update_retarget P ctx o older s :
  formula P →
  BasePlasmaProperty.update P ctx (retarget (with_value o) older s) =
  match BasePlasmaProperty.update P ctx s with
  | (Ok _, s') => (Ok tt, {| self := self s'; reads := reads s' ++ older |})
  | (Raise e, s') => (Raise e, retarget (with_value o) older s')
  end.
Proof.
  intros HP. unfold BasePlasmaProperty.update, mbind, M_bind.
  rewrite (blind_resolve_all (retarget (with_value o) older)).
  destruct (BasePlasmaProperty.resolve_all ctx (inputs P) s) as [[args|e] s1];
    simpl; [|done].
  rewrite (formula_calculate_blind P args o older HP).
  by destruct (calculate P args s1) as [[v|e] s2].
Qed.

Lemma update_formula_self P ctx s s' :
  formula P →
  BasePlasmaProperty.update P ctx s = (Ok tt, s') →
  ∃ v, self s' = set_value v (self s).
Proof.
  intros HP. unfold BasePlasmaProperty.update, mbind, M_bind.
  pose proof (resolve_all_state ctx (inputs P) s) as Hs.
  destruct (BasePlasmaProperty.resolve_all ctx (inputs P) s) as [[args|e] s1];
    simpl in *; [subst s1|done].
  pose proof (formula_calculate_readonly P args s HP) as Hro.
  destruct (calculate P args s) as [[v|e] s2]; simpl in *; [|done].
  unfold assign_value. intros [= <-]. exists v. simpl. by rewrite Hro.
Qed.

(** X8.  No stale state in the formula classes (BetaRadiation,
    LevelBoltzmannFactor, PartitionFunction): run from a node that
    differs only in the value it holds, [update] has the same result and
    does the same reads, and when it returns it leaves the same node. *)
Theorem formula_update_ignores_stored_value
    (P : plasma_property) (ctx : gmap string pyval) (n : node)
    (o : option pyval) (log : list string) :
  formula P →
  let r := BasePlasmaProperty.update P ctx {| self := n; reads := log |} in
  let r' := BasePlasmaProperty.update P ctx
              {| self := with_value o n; reads := log |} in
  r'.1 = r.1 ∧ reads r'.2 = reads r.2 ∧ (r.1 = Ok tt → r'.2 = r.2).
Proof.
  intros HP r r'.
  pose proof (update_retarget P ctx o [] {| self := n; reads := log |} HP)
    as H.
  unfold retarget in H. simpl in H. rewrite app_nil_r in H.
  subst r r'. rewrite H.
  destruct (BasePlasmaProperty.update P ctx {| self := n; reads := log |})
    as [[[]|e] [n' log']]; simpl; rewrite ?app_nil_r; done.
Qed.

(** X9.  [update] of a formula class is idempotent: after an [update]
    that returned, a second one against the same context returns too and
    leaves the node as the first left it. *)
Theorem formula_update_idempotent
    (P : plasma_property) (ctx : gmap string pyval) (s : store) :
  formula P →
  (BasePlasmaProperty.update P ctx s).1 = Ok tt →
  let s1 := (BasePlasmaProperty.update P ctx s).2 in
  (BasePlasmaProperty.update P ctx s1).1 = Ok tt ∧
  self (BasePlasmaProperty.update P ctx s1).2 = self s1.
Proof.
  intros HP Hok s1. subst s1. destruct s as [n log].
  set (B := {| self := with_value None n; reads := [] |}).
  rewrite (store_as_retarget n log) in *. fold B in Hok |- *.
  rewrite (update_retarget P ctx _ _ B HP) in *.
  destruct (BasePlasmaProperty.update P ctx B) as [[[]|e] sB] eqn:HB;
    simpl in *; [|done].
  destruct (update_formula_self P ctx B sB HP HB) as [v Hv].
  assert ({| self := self sB; reads := reads sB ++ log |} =
          retarget (with_value (Some v)) (reads sB ++ log) B) as ->.
  { unfold retarget, B. simpl. rewrite Hv. done. }
  rewrite (update_retarget P ctx _ _ B HP), HB. simpl. by rewrite Hv.
Qed.

Lemma agree_bind (g : store → store) (Q : node → Prop) {A B}
    (m : M A) (k : A → M B) :
  blind g m → preserves m →
  (∀ n n', same_but_value n n' → Q n → Q n') →
  (∀ a s, Q (self s) → (k a (g s)).1 = (k a s).1) →
  ∀ s, Q (self s) → ((m ≫= k) (g s)).1 = ((m ≫= k) s).1.
Proof.
  intros Hm Hp HQ Hk s Hs. unfold mbind, M_bind. rewrite Hm.
  specialize (Hp s). destruct (m s) as [[a|e] s']; simpl in *; [|done].
  apply Hk. by eapply HQ.
Qed.

Section empty_override.
Variables (exp : float → float) (group_sum frame_sum : list float → float).
Variable globals : gmap string pyval.
Variable cfg : gmap string pyval.
Hypothesis Hspecies : cfg !! "species" = Some (PList []).

Lemma nlte_branch_empty pf s :
  nlte_config (self s) = Some (PObject cfg) →
  PartitionFunction.nlte_branch frame_sum globals pf s =
  (Ok pf, {| self := self s; reads := "species" :: reads s |}).
Proof.
  intros Hcfg.
  unfold PartitionFunction.nlte_branch, self_attr, getattr, get_self,
    log_read, mbind, M_bind, mret, M_ret, raise. simpl.
  rewrite Hcfg. simpl. by rewrite Hspecies.
Qed.

Lemma calculate_empty_override levels lbf s :
  nlte_config (self s) = Some (PObject cfg) →
  (PartitionFunction.calculate exp group_sum frame_sum globals levels lbf
     (retarget (with_nlte_config (Some PNone)) [] s)).1 =
  (PartitionFunction.calculate exp group_sum frame_sum globals levels lbf
     s).1.
Proof.
  revert s. unfold PartitionFunction.calculate.
  repeat (apply (agree_bind (retarget (with_nlte_config (Some PNone)) [])
                   (λ n, nlte_config n = Some (PObject cfg)));
    [first [ apply blind_as_levels | apply blind_as_array | apply blind_len
           | apply blind_lift
           | by apply blind_self_attr
           | by apply blind_atom_data_levels; [apply retarget_log|] ]
    |solve [auto using preserves_atom_data_levels with preserves]
    |by intros ?? (_&_&_&_&_&->&_)
    |intros ?]).
  intros s Hs.
  erewrite bind_Ok by (by apply nlte_branch_None).
  erewrite (bind_Ok _ _ s) by (by apply nlte_branch_empty).
  done.
Qed.

(** X7.  An override configuration whose list of species is empty
    ([species == []]) gives the result, or the exception, that
    [nlte_config = None] gives: the condition of line 135 stops at its
    second operand. *)
Theorem partition_function_empty_override
    (levels lbf : pyval) (n : node) (log : list string) :
  nlte_config n = Some (PObject cfg) →
  (PartitionFunction.calculate exp group_sum frame_sum globals levels lbf
     {| self := n; reads := log |}).1 =
  (PartitionFunction.calculate exp group_sum frame_sum globals levels lbf
     {| self := with_nlte_config (Some PNone) n; reads := log |}).1.
Proof.
  intros Hn. symmetry.
  rewrite <- (calculate_empty_override levels lbf {| self := n; reads := log |})
    by done.
  unfold retarget. simpl. by rewrite app_nil_r.
Qed.

End empty_override.

(** LevelBoltzmannFactor.calculate in terms of the weighted rows. *)
Lemma level_boltzmann_factor_weighted exp lv b :
  LevelBoltzmannFactor.calculate exp lv b = Ok (weighted_frame exp lv lv b b).
Proof.
  unfold LevelBoltzmannFactor.calculate, DataFrame.
  rewrite mul_column_exp_outer.
  rewrite decide_True; [done|].
  unfold weighted_rows, arange, neg. simpl.
  by rewrite !length_fmap, length_seq.
Qed.

(** X3.  BetaRadiation.calculate followed by
    LevelBoltzmannFactor.calculate: for every levels table and
    temperature vector the result is a table indexed like [levels], with
    one column per temperature, whose entry at row [k], column [c] is the
    double [g_k * exp(-energy_k * (1 / (k_B * T_c)))]. *)
Theorem boltzmann_factor_of_temperature
    (exp : float → float) (k : float) (levels : list level)
    (t_rad : list float) :
  ∃ f : frame,
    LevelBoltzmannFactor.calculate exp levels
      (BetaRadiation.calculate k t_rad) = Ok f ∧
    index f = lkey <$> levels ∧
    columns f = arange (length t_rad) ∧
    ∀ i c l T, levels !! i = Some l → t_rad !! c = Some T →
      values f !! i ≫= (λ row, row !! c) =
      Some (g l * exp (- energy l * (1 / (k * T)))).
Proof.
  rewrite level_boltzmann_factor_weighted. eexists. split; [done|].
  simpl. split; [done|]. split.
  { by rewrite beta_radiation_calculate_map, length_fmap. }
  intros i c l T Hl HT. unfold weighted_rows.
  rewrite list_lookup_fmap, Hl. simpl.
  rewrite beta_radiation_calculate_map, !list_lookup_fmap, HT. simpl.
  by rewrite mul_opp_swap.
Qed.

Section partition_function_errors.
Variables (exp : float → float) (group_sum frame_sum : list float → float).
Variable globals : gmap string pyval.

(** X5.  A PartitionFunction node as the constructor leaves it: the
    class has no [__init__] of its own and the inherited one creates none
    of the attributes [calculate] reads, so for every context that binds
    the two inputs [update] raises [AttributeError] for [beta_rads], the
    first of them, and the node stays as it was. *)
Theorem partition_function_fresh_node
    (ctx : gmap string pyval) (levels : list level) (lbf : pyval)
    (log : list string) :
  ctx !! "levels" = Some (PLevels levels) →
  ctx !! "level_boltzmann_factor" = Some lbf →
  BasePlasmaProperty.update
    (PartitionFunction.class exp group_sum frame_sum globals) ctx
    {| self := BasePlasmaProperty.init; reads := log |} =
  (Raise (AttributeError "beta_rads"),
   {| self := BasePlasmaProperty.init; reads := log |}).
Proof.
  intros Hl Hf. unfold BasePlasmaProperty.update. simpl.
  unfold BasePlasmaProperty.resolve. rewrite Hl, Hf. done.
Qed.

Variables (lv al : list level) (b t : list float).
Variables (n : node) (ad : gmap string pyval).
Hypothesis Hb : beta_rads n = Some (PArray b).
Hypothesis Ht : t_rads n = Some (PArray t).
Hypothesis Had : atom_data n = Some (PObject ad).
Hypothesis Hal : ad !! "levels" = Some (PLevels al).

(** X6.  Shapes that disagree: when the [levels] argument and
    [self.atom_data.levels] differ in their number of rows, or
    [self.beta_rads] and [self.t_rads] in length, the DataFrame
    constructor of line 123 raises [ValueError]; nothing is grouped and
    the node is not written. *)
Theorem partition_function_shape_mismatch (lbf : pyval) (log : list string) :
  length lv ≠ length al ∨ length b ≠ length t →
  PartitionFunction.calculate exp group_sum frame_sum globals (PLevels lv) lbf
    {| self := n; reads := log |} =
  (Raise ValueError, {| self := n; reads := "levels" :: log |}).
Proof.
  intros Hshape. unfold PartitionFunction.calculate. cbv zeta.
  erewrite bind_Ok by reflexivity.
  erewrite bind_Ok by reflexivity.
  erewrite bind_Ok by (by apply self_attr_Ok).
  erewrite bind_Ok by reflexivity.
  erewrite bind_Ok by (by eapply atom_data_levels_Ok).
  erewrite bind_Ok by (by apply self_attr_Ok).
  erewrite bind_Ok by reflexivity.
  apply bind_Raise. unfold DataFrame. rewrite mul_column_exp_outer.
  rewrite decide_False; [done|]. simpl.
  unfold weighted_rows, arange, neg. rewrite !length_fmap, length_seq.
  intros [? ?]. destruct Hshape; congruence.
Qed.

(** X4.  Whenever PartitionFunction.calculate returns, the first
    component of its result is the table LevelBoltzmannFactor.calculate
    gives for the same [levels] and [self.beta_rads] (the row labels of
    [self.atom_data.levels] being those of [levels]). *)
Theorem partition_function_table_is_level_boltzmann_factor
    (lbf v : pyval) (log : list string) (s' : store) :
  lkey <$> al = lkey <$> lv →
  PartitionFunction.calculate exp group_sum frame_sum globals (PLevels lv) lbf
    {| self := n; reads := log |} = (Ok v, s') →
  ∃ f pf,
    LevelBoltzmannFactor.calculate exp lv b = Ok f ∧
    v = PTuple [PFrame f; PSpeciesFrame pf].
Proof.
  intros Hidx. unfold PartitionFunction.calculate. cbv zeta.
  erewrite bind_Ok by reflexivity.
  erewrite bind_Ok by reflexivity.
  erewrite bind_Ok by (by apply self_attr_Ok).
  erewrite bind_Ok by reflexivity.
  erewrite bind_Ok by (by eapply atom_data_levels_Ok).
  erewrite bind_Ok by (by apply self_attr_Ok).
  erewrite bind_Ok by reflexivity.
  unfold DataFrame. rewrite mul_column_exp_outer.
  case_decide as Hshape; [|unfold mbind, M_bind; simpl; done].
  erewrite bind_Ok by reflexivity.
  simpl in Hshape. destruct Hshape as [_ Hcols].
  unfold arange, neg in Hcols. rewrite !length_fmap, length_seq in Hcols.
  unfold mbind, M_bind. intros H.
  repeat (case_match; simplify_eq).
  unfold mret, M_ret in H. injection H as <- <-.
  eexists _, _. split; [apply level_boltzmann_factor_weighted|].
  assert (weighted_frame exp lv al b t = weighted_frame exp lv lv b b) as Hf.
  { unfold weighted_frame. by rewrite Hidx, Hcols. }
  exact (f_equal (λ f, PTuple [PFrame f; PSpeciesFrame _]) Hf).
Qed.

End partition_function_errors.

(** X10.  A memoized-source node whose value is set: [update] returns
    and leaves the node as it is, whatever the context binds to
    [atomic_data]; the source is not read, not even its capability
    flag. *)
Theorem atomic_data_update_loaded
    (name : string) (ctx : gmap string pyval) (atomic_data : pyval)
    (n : node) (log : list string) (v : pyval) :
  value n = Some v → is_None v = false →
  ctx !! "atomic_data" = Some atomic_data →
  BasePlasmaProperty.update (BaseAtomicDataProperty.class name) ctx
    {| self := n; reads := log |} =
  (Ok tt, {| self := n; reads := log |}).
Proof.
  intros Hn Hv Hctx. unfold BasePlasmaProperty.update. simpl.
  unfold BasePlasmaProperty.resolve. rewrite Hctx.
  unfold BaseAtomicDataProperty.calculate, self_attr, get_self, assign_value,
    mbind, M_bind, mret, M_ret. simpl.
  rewrite Hn. simpl. rewrite Hv. simpl.
  do 2 f_equal. destruct n. simpl in *. unfold set_value. simpl. by rewrite Hn.
Qed.

(** X11.  An unloaded memoized-source node and a source that lacks an
    attribute: without [has_<name>], [update] raises [AttributeError]
    for the flag; with [has_<name>] true and no dataset, it raises
    [AttributeError] for the dataset (not [IncompleteAtomicData]).  The
    node stays as it was. *)
Theorem atomic_data_update_missing_attribute
    (name : string) (ctx src : gmap string pyval) (n : node)
    (log : list string) :
  value n = Some PNone →
  ctx !! "atomic_data" = Some (PObject src) →
  (src !! ("has_" +:+ name) = None →
   BasePlasmaProperty.update (BaseAtomicDataProperty.class name) ctx
     {| self := n; reads := log |} =
   (Raise (AttributeError ("has_" +:+ name)),
    {| self := n; reads := ("has_" +:+ name) :: log |})) ∧
  (src !! ("has_" +:+ name) = Some (PBool true) → src !! name = None →
   BasePlasmaProperty.update (BaseAtomicDataProperty.class name) ctx
     {| self := n; reads := log |} =
   (Raise (AttributeError name),
    {| self := n; reads := name :: ("has_" +:+ name) :: log |})).
Proof.
  intros Hn Hctx. unfold BasePlasmaProperty.update. simpl.
  unfold BasePlasmaProperty.resolve. rewrite Hctx.
  unfold BaseAtomicDataProperty.calculate, self_attr, getattr, get_self,
    log_read, mbind, M_bind, mret, M_ret, raise. simpl.
  rewrite Hn. simpl. split.
  - by intros ->.
  - intros -> Hd. simpl. by rewrite Hd.
Qed.

(** X12.  The capability flag is tested for truth, not compared with
    [False]: [None], [False], [0], [0.0], [-0.0], [[]] and [()] all make
    [update] raise [IncompleteAtomicData] with the name of the node. *)
Theorem atomic_data_update_falsy_flag
    (name : string) (ctx src : gmap string pyval) (flag : pyval) (n : node)
    (log : list string) :
  value n = Some PNone →
  ctx !! "atomic_data" = Some (PObject src) →
  src !! ("has_" +:+ name) = Some flag →
  flag ∈ [PNone; PBool false; PInt 0; PFloat 0; PFloat (-0); PList [];
          PTuple []] →
  BasePlasmaProperty.update (BaseAtomicDataProperty.class name) ctx
    {| self := n; reads := log |} =
  (Raise (IncompleteAtomicData name),
   {| self := n; reads := ("has_" +:+ name) :: log |}).
Proof.
  intros Hn Hctx Hflag Hfalsy. unfold BasePlasmaProperty.update. simpl.
  unfold BasePlasmaProperty.resolve. rewrite Hctx.
  unfold BaseAtomicDataProperty.calculate, self_attr, getattr, get_self,
    log_read, mbind, M_bind, mret, M_ret, raise. simpl.
  rewrite Hn. simpl. rewrite Hflag.
  repeat (apply elem_of_cons in Hfalsy as [->|Hfalsy]; [done|]).
  by apply elem_of_nil in Hfalsy.
Qed.

(** ** get_label *)

(** X13.  [get_label] on an instance of each class: AtomicLevels,
    AtomicLines and BetaRadiation give their three-line label;
    LevelBoltzmannFactor, which has a [name] but no [type_str], raises
    [AttributeError] for [type_str]; the classes without [name] raise
    [AttributeError] for [name]. *)
Theorem get_label_by_class (c : plasma_class) :
  get_label c =
  match c with
  | Class_AtomicLevels =>
      Ok (format_label "levels" "pandas.DataFrame" "")
  | Class_AtomicLines =>
      Ok (format_label "lines" "pandas.DataFrame" "")
  | Class_BetaRadiation =>
      Ok (format_label "beta_rad" "numpy.array"
            "$\frac{1}{K_B T_\textrm{rad}}$")
  | Class_LevelBoltzmannFactor => Raise (AttributeError "type_str")
  | Class_BasePlasmaProperty | Class_BaseAtomicDataProperty
  | Class_PartitionFunction => Raise (AttributeError "name")
  end.
Proof. by destruct c. Qed.

Lemma append_separator_inj c a a' r r' :
  has_char c a = false → has_char c a' = false →
  a +:+ String c r = a' +:+ String c r' → a = a' ∧ r = r'.
Proof.
  revert a'. induction a as [|x a IH]; intros [|x' a']; simpl.
  - intros _ _ [= ->]. done.
  - intros _ Hc [= <- _]. by rewrite Ascii.eqb_refl in Hc.
  - intros Hc _ [= -> _]. by rewrite Ascii.eqb_refl in Hc.
  - destruct (Ascii.eqb x c) eqn:?; [done|].
    destruct (Ascii.eqb x' c) eqn:?; [done|].
    intros Ha Ha' [= -> H]. destruct (IH a' Ha Ha' H) as [-> ->]. done.
Qed.

(** X14.  The label determines its three parts: two labels built from
    names and type descriptions that hold no line feed are equal only if
    the names, the type descriptions and the formulas are. *)
Theorem format_label_inj (name type_str latex name' type_str' latex' : string) :
  has_char line_feed name = false → has_char line_feed name' = false →
  has_char line_feed type_str = false → has_char line_feed type_str' = false →
  format_label name type_str latex = format_label name' type_str' latex' →
  name = name' ∧ type_str = type_str' ∧ latex = latex'.
Proof.
  intros Hn Hn' Ht Ht'. unfold format_label, newline.
  intros H. cbn [String.append] in H.
  injection H as H.
  apply append_separator_inj in H as [-> H]; [|done..].
  cbn [String.append] in H. injection H as H.
  apply append_separator_inj in H as [-> ->]; done.
Qed.

(** ** Instances *)

Lemma formula_update_ignores_stored_value_witness :
  (BasePlasmaProperty.update BetaRadiation.class
     {[ "t_rad" := PArray [10000] ]}
     {| self := with_value (Some PNone) (BetaRadiation.init k_B_2010);
        reads := [] |}).1 =
  (BasePlasmaProperty.update BetaRadiation.class
     {[ "t_rad" := PArray [10000] ]}
     {| self := BetaRadiation.init k_B_2010; reads := [] |}).1.
Proof.
  exact (proj1 (formula_update_ignores_stored_value BetaRadiation.class
                  {[ "t_rad" := PArray [10000] ]}
                  (BetaRadiation.init k_B_2010) (Some PNone) []
                  formula_beta_radiation)).
Defined.

Lemma formula_update_idempotent_witness :
  self (BasePlasmaProperty.update BetaRadiation.class
          {[ "t_rad" := PArray [10000] ]}
          (BasePlasmaProperty.update BetaRadiation.class
             {[ "t_rad" := PArray [10000] ]}
             {| self := BetaRadiation.init k_B_2010; reads := [] |}).2).2 =
  self (BasePlasmaProperty.update BetaRadiation.class
          {[ "t_rad" := PArray [10000] ]}
          {| self := BetaRadiation.init k_B_2010; reads := [] |}).2.
Proof.
  exact (proj2 (formula_update_idempotent BetaRadiation.class
                  {[ "t_rad" := PArray [10000] ]}
                  {| self := BetaRadiation.init k_B_2010; reads := [] |}
                  formula_beta_radiation eq_refl)).
Defined.

Lemma partition_function_empty_override_witness :
  (PartitionFunction.calculate scenario_exp scenario_sum scenario_sum
     module_globals (PLevels (two_level_table true)) PNone
     {| self := two_level_node true (PObject empty_override_config);
        reads := [] |}).1 =
  (PartitionFunction.calculate scenario_exp scenario_sum scenario_sum
     module_globals (PLevels (two_level_table true)) PNone
     {| self := with_nlte_config (Some PNone)
                  (two_level_node true (PObject empty_override_config));
        reads := [] |}).1.
Proof.
  exact (partition_function_empty_override scenario_exp scenario_sum
           scenario_sum module_globals empty_override_config eq_refl
           (PLevels (two_level_table true)) PNone
           (two_level_node true (PObject empty_override_config)) []
           eq_refl).
Defined.

Lemma partition_function_fresh_node_witness :
  BasePlasmaProperty.update
    (PartitionFunction.class scenario_exp scenario_sum scenario_sum
       module_globals)
    {[ "levels" := PLevels (two_level_table true);
       "level_boltzmann_factor" := PNone ]}
    {| self := BasePlasmaProperty.init; reads := [] |} =
  (Raise (AttributeError "beta_rads"),
   {| self := BasePlasmaProperty.init; reads := [] |}).
Proof.
  apply (partition_function_fresh_node scenario_exp scenario_sum
           scenario_sum module_globals
           {[ "levels" := PLevels (two_level_table true);
              "level_boltzmann_factor" := PNone ]}
           (two_level_table true) PNone []); reflexivity.
Defined.

Lemma partition_function_shape_mismatch_witness :
  PartitionFunction.calculate scenario_exp scenario_sum scenario_sum
    module_globals (PLevels (take 1 (two_level_table true))) PNone
    {| self := two_level_node true PNone; reads := [] |} =
  (Raise ValueError,
   {| self := two_level_node true PNone; reads := ["levels"] |}).
Proof.
  apply (partition_function_shape_mismatch scenario_exp scenario_sum
           scenario_sum module_globals (take 1 (two_level_table true))
           (two_level_table true) [1] [10000] (two_level_node true PNone)
           {[ "levels" := PLevels (two_level_table true) ]}
           eq_refl eq_refl eq_refl eq_refl PNone []).
  left. simpl. lia.
Defined.

Lemma partition_function_table_is_level_boltzmann_factor_witness :
  ∃ f pf,
    LevelBoltzmannFactor.calculate scenario_exp (two_level_table true) [1] =
      Ok f ∧
    (PartitionFunction.calculate scenario_exp scenario_sum scenario_sum
       module_globals (PLevels (two_level_table true)) PNone
       {| self := two_level_node true PNone; reads := [] |}).1 =
      Ok (PTuple [PFrame f; PSpeciesFrame pf]).
Proof.
  destruct (partition_function_table_is_level_boltzmann_factor scenario_exp
              scenario_sum scenario_sum module_globals
              (two_level_table true) (two_level_table true) [1] [10000]
              (two_level_node true PNone)
              {[ "levels" := PLevels (two_level_table true) ]}
              eq_refl eq_refl eq_refl eq_refl PNone _ [] _ eq_refl
              (surjective_pairing _))
    as (f & pf & Hf & Hv).
  exists f, pf. split; [exact Hf|]. exact (f_equal Ok Hv).
Defined.

Lemma atomic_data_update_loaded_witness :
  BasePlasmaProperty.update AtomicLevels.class
    {[ "atomic_data" := PObject {[ "has_levels" := PBool false ]} ]}
    {| self := set_value (PLevels []) BaseAtomicDataProperty.init;
       reads := [] |} =
  (Ok tt,
   {| self := set_value (PLevels []) BaseAtomicDataProperty.init;
      reads := [] |}).
Proof.
  apply (atomic_data_update_loaded "levels"
           {[ "atomic_data" := PObject {[ "has_levels" := PBool false ]} ]}
           (PObject {[ "has_levels" := PBool false ]})
           (set_value (PLevels []) BaseAtomicDataProperty.init) []
           (PLevels [])); reflexivity.
Defined.

Lemma atomic_data_update_missing_attribute_witness :
  BasePlasmaProperty.update AtomicLines.class
    {[ "atomic_data" := PObject {[ "has_lines" := PBool true ]} ]}
    {| self := BaseAtomicDataProperty.init; reads := [] |} =
  (Raise (AttributeError "lines"),
   {| self := BaseAtomicDataProperty.init;
      reads := ["lines"; "has_lines"] |}).
Proof.
  destruct (atomic_data_update_missing_attribute "lines"
              {[ "atomic_data" := PObject {[ "has_lines" := PBool true ]} ]}
              {[ "has_lines" := PBool true ]}
              BaseAtomicDataProperty.init []) as [_ H]; [reflexivity..|].
  apply H; reflexivity.
Defined.

Lemma atomic_data_update_falsy_flag_witness :
  BasePlasmaProperty.update AtomicLevels.class
    {[ "atomic_data" := PObject {[ "has_levels" := PInt 0 ]} ]}
    {| self := BaseAtomicDataProperty.init; reads := [] |} =
  (Raise (IncompleteAtomicData "levels"),
   {| self := BaseAtomicDataProperty.init; reads := ["has_levels"] |}).
Proof.
  apply (atomic_data_update_falsy_flag "levels"
           {[ "atomic_data" := PObject {[ "has_levels" := PInt 0 ]} ]}
           {[ "has_levels" := PInt 0 ]} (PInt 0)
           BaseAtomicDataProperty.init []); try reflexivity.
  do 2 right. left.
Defined.

Lemma format_label_inj_witness :
  "levels" = "levels" ∧ "pandas.DataFrame" = "pandas.DataFrame" ∧
  EmptyString = EmptyString.
Proof.
  apply (format_label_inj "levels" "pandas.DataFrame" ""
           "levels" "pandas.DataFrame" ""); reflexivity.
Defined.
